(** * CustomConsole (packages/jest-util/src/Console.js)

    A shallow embedding of jest-util's [CustomConsole]: levelled logging,
    indentation groups, labelled counters and the width-fitted table
    renderer, together with the properties of the component that its
    specification states.

    The source file carries two revisions of the class.  The later one
    (with [_generateIndentation], [exception] and the per-column separator
    row) is the one the test-suite exercises; it is embedded at top level.
    The earlier revision is embedded in [Module Rev1] so that the places
    where the two differ are on record. *)

From Stdlib Require Import ZArith List Ascii String DecimalString Lia.
From stdpp Require Import base option list gmap strings.
Import ListNotations.

Set Warnings "-register-all".
Local Open Scope Z_scope.

(** ** JavaScript strings

    A JavaScript string is a sequence of UTF-16 code units and [length]
    counts code units, so a string is a list of code units here. *)

Definition codeunit : Type := N.
Abbreviation jsstring := (list N).

(** An ASCII literal as a JavaScript string. *)
Definition lit (s : string) : jsstring :=
  map N_of_ascii (list_ascii_of_string s).

(** [str.length]. *)
Definition String_length (s : jsstring) : Z := Z.of_nat (length s).

Inductive JsError : Type :=
| RangeError
| TypeError
| ReferenceError.

(** [str.repeat(count)]: a [RangeError] for a negative count. *)
Definition String_repeat (s : jsstring) (count : Z) : JsError + jsstring :=
  if count <? 0 then inl RangeError
  else inr (concat (replicate (Z.to_nat count) s)).

(** [str.substring(0, end)]: a negative [end] is taken as 0, one past the
    length as the length. *)
Definition String_substring0 (s : jsstring) (e : Z) : jsstring :=
  take (Z.to_nat e) s.

(** [String(n)] for an integer number, in decimal digits.  This is what
    JavaScript writes for the integers it holds exactly and below 1e21;
    from there on it writes an exponent, as in [1e+21], and such numbers
    are outside the model. *)
Definition Number_toString (n : Z) : jsstring :=
  lit (NilZero.string_of_int (Z.to_int n)).

(** ** JavaScript values

    The data a caller hands to the console: JSON-like values and
    [undefined].  Numbers are the integers (no fractions, [NaN] or
    infinities); an object is the list of its own enumerable properties in
    enumeration order.  Functions and symbols are not among the values:
    [JSON.stringify] gives [undefined] for them as it does for [undefined],
    so a statement that needs a value to have a JSON text says so of
    [JSON_stringify], and does not say that the value is not
    [undefined]. *)

Inductive JsValue : Type :=
| JUndefined
| JNull
| JBool (b : bool)
| JNum (n : Z)
| JStr (s : jsstring)
| JArr (elems : list JsValue)
| JObj (props : list (jsstring * JsValue)).

(** ToBoolean. *)
Definition truthy (v : JsValue) : bool :=
  match v with
  | JUndefined | JNull => false
  | JBool b => b
  | JNum n => negb (n =? 0)
  | JStr s => negb (bool_decide (s = []))
  | JArr _ | JObj _ => true
  end.

Inductive JsType : Type :=
| TyUndefined | TyObject | TyBoolean | TyNumber | TyString.

(** [typeof v]; [typeof null] is ["object"]. *)
Definition typeof (v : JsValue) : JsType :=
  match v with
  | JUndefined => TyUndefined
  | JNull | JArr _ | JObj _ => TyObject
  | JBool _ => TyBoolean
  | JNum _ => TyNumber
  | JStr _ => TyString
  end.

Global Instance JsType_eq_dec : EqDecision JsType.
Proof. solve_decision. Defined.

(** *** JSON.stringify *)

Definition hex_digit (d : N) : N :=
  (if d <? 10 then 48 + d else 87 + d)%N.

(** The JSON escape of one code unit of a string. *)
Definition JSON_escape (c : codeunit) : jsstring :=
  if (c =? 34)%N then lit "\" ++ [c]
  else if (c =? 92)%N then lit "\\"
  else if (c =? 8)%N then lit "\b"
  else if (c =? 12)%N then lit "\f"
  else if (c =? 10)%N then lit "\n"
  else if (c =? 13)%N then lit "\r"
  else if (c =? 9)%N then lit "\t"
  else if (c <? 32)%N then lit "\u00" ++ [hex_digit (c / 16); hex_digit (c mod 16)]
  else [c].

Definition JSON_quote (s : jsstring) : jsstring :=
  [34%N] ++ concat (map JSON_escape s) ++ [34%N].

Fixpoint join (sep : jsstring) (parts : list jsstring) : jsstring :=
  match parts with
  | [] => []
  | [p] => p
  | p :: rest => p ++ sep ++ join sep rest
  end.

(** [JSON.stringify(value)] without indentation: [None] is the result
    [undefined].  Inside an array [undefined] is written [null]; a property
    whose value is [undefined] is left out of its object. *)
Fixpoint JSON_stringify (v : JsValue) : option jsstring :=
  match v with
  | JUndefined => None
  | JNull => Some (lit "null")
  | JBool b => Some (lit (if b then "true" else "false"))
  | JNum n => Some (Number_toString n)
  | JStr s => Some (JSON_quote s)
  | JArr elems =>
      let fix items (l : list JsValue) : list jsstring :=
        match l with
        | [] => []
        | e :: l' => default (lit "null") (JSON_stringify e) :: items l'
        end in
      Some (lit "[" ++ join (lit ",") (items elems) ++ lit "]")
  | JObj props =>
      let fix members (l : list (jsstring * JsValue)) : list jsstring :=
        match l with
        | [] => []
        | (k, e) :: l' =>
            match JSON_stringify e with
            | Some s => (JSON_quote k ++ lit ":" ++ s) :: members l'
            | None => members l'
            end
        end in
      Some (lit "{" ++ join (lit ",") (members props) ++ lit "}")
  end.

(** [Object.entries(data)] of an array or an object: array indices are the
    keys ["0"], ["1"], ... *)
Definition Object_entries (data : JsValue) : list (jsstring * JsValue) :=
  match data with
  | JArr elems => imap (fun i e => (Number_toString (Z.of_nat i), e)) elems
  | JObj props => props
  | _ => []
  end.

Definition Object_keys (data : JsValue) : list jsstring :=
  map fst (Object_entries data).

Definition Object_values (data : JsValue) : list JsValue :=
  map snd (Object_entries data).

(** [data[key]] for an own key of [data]; [undefined] when there is none. *)
Definition get_property (data : JsValue) (key : jsstring) : JsValue :=
  match find (fun kv => bool_decide (kv.1 = key)) (Object_entries data) with
  | Some kv => kv.2
  | None => JUndefined
  end.

(** ** Numbers that may be [-Infinity] *)

Inductive ExtZ : Type :=
| NegInfinity
| Finite (z : Z).

(** [Math.max(a, b)] *)
Definition Math_max (a b : ExtZ) : ExtZ :=
  match a, b with
  | NegInfinity, _ => b
  | _, NegInfinity => a
  | Finite x, Finite y => Finite (Z.max x y)
  end.

(** [Math.max(a, n)] for a finite [n], which is finite. *)
Definition Math_max_fin (a : ExtZ) (n : Z) : Z :=
  match Math_max a (Finite n) with
  | Finite z => z
  | NegInfinity => n
  end.

(** ** The console object *)

Inductive LogType : Type := TLog | TInfo | TWarn | TError.

Definition Formatter : Type := LogType → jsstring → jsstring.

(** A value stored in [this._counts]: a number, possibly [NaN]. *)
Inductive CountNumber : Type :=
| CNum (n : Z)
| CNaN.

(** What reading [this._counts[label]] can give.  [this._counts] starts as
    the object literal [{}], whose prototype is [Object.prototype]: a label
    that is not an own property is looked up there. *)
Inductive Slot : Type :=
| SUndefined
| SNumber (c : CountNumber)
| SFunction (name : jsstring)
| SObjectPrototype.

(** The function-valued properties of [Object.prototype]. *)
Definition Object_prototype_methods : list jsstring :=
  map lit ["constructor"; "hasOwnProperty"; "isPrototypeOf";
           "propertyIsEnumerable"; "toLocaleString"; "toString"; "valueOf";
           "__defineGetter__"; "__defineSetter__"; "__lookupGetter__";
           "__lookupSetter__"]%string.

(** The accessor property of [Object.prototype]. *)
Definition proto_accessor : jsstring := lit "__proto__".

Record Console : Type := mkConsole {
  _formatBuffer : Formatter;
  _groupLevel : Z;
  _counts : gmap jsstring CountNumber;
  _outWidth : Z
}.

(** The one fact of the stream that the constructor reads: the outcome of
    the test [stdout instanceof tty$WriteStream] and the column count. *)
Record Writable : Type := mkWritable {
  isTTY : bool;
  columns : Z
}.

(** The fields that the constructor assigns, given the outcome of its test
    [stdout instanceof tty$WriteStream]. *)
Definition new_CustomConsole (stdout : Writable) (formatBuffer : option Formatter)
  : Console :=
  {| _formatBuffer := default (fun _ message => message) formatBuffer;
     _groupLevel := 0;
     _counts := ∅;
     _outWidth := if isTTY stdout then columns stdout else 80 |}.

(** Whether the name [tty$WriteStream] is bound where the module runs.  The
    file names it to the linter ([/* global tty$WriteStream */]) and in a
    Flow cast, and neither binds it. *)
Inductive Global : Type :=
| Unbound
| Bound.

(** The constructor: the test [stdout instanceof tty$WriteStream] comes
    after the other assignments and is a [ReferenceError] where the name is
    not bound, so that no console comes into being there. *)
Definition constructor (tty_WriteStream : Global) (stdout : Writable)
    (formatBuffer : option Formatter) : JsError + Console :=
  match tty_WriteStream with
  | Unbound => inl ReferenceError
  | Bound => inr (new_CustomConsole stdout formatBuffer)
  end.

(** [this._counts[label]] *)
Definition counts_get (counts : gmap jsstring CountNumber) (label : jsstring) : Slot :=
  match counts !! label with
  | Some c => SNumber c
  | None =>
      if bool_decide (label = proto_accessor) then SObjectPrototype
      else if bool_decide (label ∈ Object_prototype_methods) then SFunction label
      else SUndefined
  end.

(** [this._counts[label] = c]: the setter of [__proto__] ignores a number. *)
Definition counts_set (counts : gmap jsstring CountNumber) (label : jsstring)
    (c : CountNumber) : gmap jsstring CountNumber :=
  if bool_decide (label = proto_accessor) then counts else <[label := c]> counts.

(** ToBoolean, ToNumber and ToString of a slot. *)
Definition Slot_truthy (s : Slot) : bool :=
  match s with
  | SUndefined | SNumber CNaN => false
  | SNumber (CNum n) => negb (n =? 0)
  | SFunction _ | SObjectPrototype => true
  end.

Definition Slot_toNumber (s : Slot) : CountNumber :=
  match s with
  | SNumber c => c
  | _ => CNaN
  end.

Definition CountNumber_succ (c : CountNumber) : CountNumber :=
  match c with
  | CNum n => CNum (n + 1)
  | CNaN => CNaN
  end.

Definition Slot_toString (s : Slot) : jsstring :=
  match s with
  | SUndefined => lit "undefined"
  | SNumber (CNum n) => Number_toString n
  | SNumber CNaN => lit "NaN"
  | SFunction name => lit "function " ++ name ++ lit "() { [native code] }"
  | SObjectPrototype => lit "[object Object]"
  end.

(** ** Effects

    A method reads and updates the console object, writes to the sink and
    may throw.  What reaches the sink is recorded as a list of events. *)

Inductive Event : Type :=
| ClearLine
| WriteLine (line : jsstring).

Record Outcome (A : Type) : Type := mkOutcome {
  completion : JsError + A;
  final : Console;
  output : list Event
}.
Arguments mkOutcome {A} _ _ _.
Arguments completion {A} _.
Arguments final {A} _.
Arguments output {A} _.

Definition Js (A : Type) : Type := Console → Outcome A.

Global Instance Js_ret : MRet Js :=
  fun A x st => mkOutcome (inr x) st [].

Global Instance Js_bind : MBind Js :=
  fun A B f m st =>
    let r := m st in
    match completion r with
    | inl e => mkOutcome (inl e) (final r) (output r)
    | inr x =>
        let r' := f x (final r) in
        mkOutcome (completion r') (final r') (output r ++ output r')
    end.

(** A pure computation that may throw. *)
Definition liftE {A} (r : JsError + A) : Js A :=
  fun st => mkOutcome r st [].

Definition this : Js Console :=
  fun st => mkOutcome (inr st) st [].

Definition set_groupLevel (n : Z) : Js unit :=
  fun st => mkOutcome (inr ())
    (mkConsole (_formatBuffer st) n (_counts st) (_outWidth st)) [].

Definition set_counts (c : gmap jsstring CountNumber) : Js unit :=
  fun st => mkOutcome (inr ())
    (mkConsole (_formatBuffer st) (_groupLevel st) c (_outWidth st)) [].

Definition emit (e : Event) : Js unit :=
  fun st => mkOutcome (inr ()) st [e].

(** Modelled from the spec: [clearLine(stream)] of ./clear_line, which is
    not among the sources: it clears an unfinished line on the sink and
    touches nothing of the console object. *)
Definition clearLine : Js unit := emit ClearLine.

(** [super.log(str)] of Node's [Console] for one string argument: the
    string and a line terminator are written to [stdout]. *)
Definition super_log (str : jsstring) : Js unit := emit (WriteLine str).

Fixpoint for_of {A} (arr : list A) (body : A → Js unit) : Js unit :=
  match arr with
  | [] => mret ()
  | el :: rest => body el ;; for_of rest body
  end.

(** ** The helpers of [table] *)

(** [pad]: right pad a string to the given width, or truncate it. *)
Definition pad (str : jsstring) (width : Z) : JsError + jsstring :=
  if String_length str >? width then inr (String_substring0 str width)
  else
    match String_repeat (lit " ") (width - String_length str) with
    | inl e => inl e
    | inr spaces => inr (str ++ spaces)
    end.

(** The loop of [max]: [maxEval] starts as [-Infinity] and stays a number,
    so the test [maxEval === null] never succeeds and every round takes
    [Math.max]. *)
Fixpoint max_from {A} (maxEval : ExtZ) (arr : list A)
    (evaluator : A → JsError + Z) : JsError + ExtZ :=
  match arr with
  | [] => inr maxEval
  | el :: rest =>
      match evaluator el with
      | inl e => inl e
      | inr evaluatedValue =>
          max_from (Math_max maxEval (Finite evaluatedValue)) rest evaluator
      end
  end.

(** [max]: the maximum of an array under the given evaluator. *)
Definition max {A} (arr : list A) (evaluator : A → JsError + Z)
  : JsError + ExtZ :=
  max_from NegInfinity arr evaluator.

(** [stringify]: [JSON.stringify(value).replace(/\n/g, '')].  When
    [JSON.stringify] gives [undefined], calling [replace] on it is a
    [TypeError]. *)
Definition stringify (value : JsValue) : JsError + jsstring :=
  match JSON_stringify value with
  | None => inl TypeError
  | Some s => inr (filter (fun c => c ≠ 10%N) s)
  end.

(** The loop that makes the table fit:
[[
    while (totalTableWidth > this._outWidth) {
      if (valueWidth > keyWidth) { valueWidth--; } else { keyWidth--; }
      totalTableWidth = keyWidth + valueWidth + 7;
    }
]]
    Each round lowers [totalTableWidth] by one, so
    [totalTableWidth - outWidth] rounds are enough ([fitWidths_unfold]). *)
Fixpoint fit_loop (rounds : nat) (outWidth keyWidth valueWidth : Z) : Z * Z :=
  match rounds with
  | O => (keyWidth, valueWidth)
  | S rounds' =>
      if keyWidth + valueWidth + 7 >? outWidth then
        if valueWidth >? keyWidth
        then fit_loop rounds' outWidth keyWidth (valueWidth - 1)
        else fit_loop rounds' outWidth (keyWidth - 1) valueWidth
      else (keyWidth, valueWidth)
  end.

Definition fitWidths (outWidth keyWidth valueWidth : Z) : Z * Z :=
  fit_loop (Z.to_nat (keyWidth + valueWidth + 7 - outWidth))
           outWidth keyWidth valueWidth.

(** The widths before fitting. *)
Definition maxKeyLen (data : JsValue) : JsError + ExtZ :=
  max (Object_keys data) (fun el => inr (String_length el)).

Definition maxValueWidth (data : JsValue) : JsError + ExtZ :=
  max (Object_values data)
      (fun el => match stringify el with
                 | inl e => inl e
                 | inr s => inr (String_length s)
                 end).

(** The overline character U+203E of the bottom border. *)
Definition overline : jsstring := [8254%N].

(** ** The methods *)

Section Methods.

(** [util.format] of Node on anything but a lone string: what it prints
    for objects is Node's business and is left open. *)
Variable format_inspect : list JsValue → jsstring.

(** [format.apply(null, arguments)]: no argument gives the empty string
    and a lone string is returned as it is. *)
Definition format (args : list JsValue) : jsstring :=
  match args with
  | [] => []
  | [JStr f] => f
  | _ => format_inspect args
  end.

Definition _generateIndentation : Js jsstring :=
  self ← this;
  liftE (String_repeat (lit "> ") (_groupLevel self)).

Definition _log (type : LogType) (message : jsstring) : Js unit :=
  clearLine ;;
  indentation ← _generateIndentation;
  self ← this;
  super_log (indentation ++ _formatBuffer self type message).

Definition log (args : list JsValue) : Js unit :=
  _log TLog (format args).

Definition assert (assertion : JsValue) (args : list JsValue) : Js unit :=
  if negb (truthy assertion) then log args else mret ().

Definition clear : Js unit := mret ().

Definition count (label : option jsstring) : Js unit :=
  let label := default (lit "<no label>") label in
  self ← this;
  (if negb (Slot_truthy (counts_get (_counts self) label))
   then set_counts (counts_set (_counts self) label (CNum 0))
   else mret ()) ;;
  self ← this;
  set_counts (counts_set (_counts self) label
    (CountNumber_succ (Slot_toNumber (counts_get (_counts self) label)))) ;;
  self ← this;
  _log TLog (label ++ lit ": " ++ Slot_toString (counts_get (_counts self) label)).

Definition error (args : list JsValue) : Js unit :=
  _log TError (format args).

Definition exception (args : list JsValue) : Js unit :=
  error args.

(** [label] is [None] for an absent ([undefined] or [null]) label. *)
Definition group (label : option jsstring) : Js unit :=
  self ← this;
  set_groupLevel (_groupLevel self + 1) ;;
  match label with
  | Some l => if truthy (JStr l) then log [JStr l] else mret ()
  | None => mret ()
  end.

(** [groupCollapsed() { this.group(); }]: the method declares no
    parameter, so whatever a caller passes is dropped. *)
Definition groupCollapsed (arguments : list JsValue) : Js unit :=
  group None.

Definition groupEnd : Js unit :=
  self ← this;
  set_groupLevel (_groupLevel self - 1).

Definition info (args : list JsValue) : Js unit :=
  _log TInfo (format args).

Definition warn (args : list JsValue) : Js unit :=
  _log TWarn (format args).

Definition getBuffer : Js JsValue := mret JNull.

(** One data row of the table. *)
Definition table_row (data : JsValue) (keyWidth valueWidth : Z)
    (key : jsstring) : Js unit :=
  value ← liftE (stringify (get_property data key));
  paddedKey ← liftE (pad key keyWidth);
  paddedValue ← liftE (pad value valueWidth);
  log [JStr (lit "| " ++ paddedKey ++ lit " | " ++ paddedValue ++ lit " |")].

Definition table (data : JsValue) (columns : option (list JsValue)) : Js unit :=
  if negb (truthy data) || negb (bool_decide (typeof data = TyObject))
  then mret ()
  else
    let keys := Object_keys data in
    maxKeyLen ← liftE (maxKeyLen data);
    maxValueWidth ← liftE (maxValueWidth data);
    self ← this;
    let widths :=
      fitWidths (_outWidth self)
        (Math_max_fin maxKeyLen (String_length (lit "(index)")))
        (Math_max_fin maxValueWidth (String_length (lit "Value"))) in
    let keyWidth := widths.1 in
    let valueWidth := widths.2 in
    let totalTableWidth := keyWidth + valueWidth + 7 in
    keyHeader ← liftE (pad (lit "(index)") keyWidth);
    valueHeader ← liftE (pad (lit "Value") valueWidth);
    top ← liftE (String_repeat (lit "_") totalTableWidth);
    log [JStr top] ;;
    log [JStr (lit "| " ++ keyHeader ++ lit " | " ++ valueHeader ++ lit " |")] ;;
    keyDashes ← liftE (String_repeat (lit "-") (keyWidth + 2));
    valueDashes ← liftE (String_repeat (lit "-") (valueWidth + 2));
    log [JStr (lit "|" ++ keyDashes ++ lit "|" ++ valueDashes ++ lit "|")] ;;
    for_of keys (table_row data keyWidth valueWidth) ;;
    bottom ← liftE (String_repeat overline totalTableWidth);
    log [JStr bottom].

End Methods.

(** ** Sequences of calls

    A caller that goes on after a call has thrown: the console keeps the
    state the call left behind. *)

Inductive Call : Type :=
| CallAssert (assertion : JsValue) (args : list JsValue)
| CallClear
| CallCount (label : option jsstring)
| CallError (args : list JsValue)
| CallException (args : list JsValue)
| CallGroup (label : option jsstring)
| CallGroupCollapsed (arguments : list JsValue)
| CallGroupEnd
| CallInfo (args : list JsValue)
| CallLog (args : list JsValue)
| CallTable (data : JsValue) (columns : option (list JsValue))
| CallWarn (args : list JsValue)
| CallGetBuffer.

Section Calls.

Variable format_inspect : list JsValue → jsstring.

Definition invoke (c : Call) : Js unit :=
  match c with
  | CallAssert assertion args => assert format_inspect assertion args
  | CallClear => clear
  | CallCount label => count label
  | CallError args => error format_inspect args
  | CallException args => exception format_inspect args
  | CallGroup label => group format_inspect label
  | CallGroupCollapsed arguments => groupCollapsed format_inspect arguments
  | CallGroupEnd => groupEnd
  | CallInfo args => info format_inspect args
  | CallLog args => log format_inspect args
  | CallTable data columns => table format_inspect data columns
  | CallWarn args => warn format_inspect args
  | CallGetBuffer => getBuffer ;; mret ()
  end.

(** The console after a sequence of calls. *)
Definition after (calls : list Call) (st : Console) : Console :=
  foldl (fun st c => final (invoke c st)) st calls.

(** Everything the sequence wrote. *)
Fixpoint written (calls : list Call) (st : Console) : list Event :=
  match calls with
  | [] => []
  | c :: rest => output (invoke c st) ++ written rest (final (invoke c st))
  end.

(** The four levelled methods by their level. *)
Definition leveled (type : LogType) (args : list JsValue) : Js unit :=
  match type with
  | TLog => log format_inspect args
  | TInfo => info format_inspect args
  | TWarn => warn format_inspect args
  | TError => error format_inspect args
  end.

End Calls.

(** How many calls of the sequence open a group, close one, or count
    [label]. *)
Definition opens (c : Call) : bool :=
  match c with
  | CallGroup _ | CallGroupCollapsed _ => true
  | _ => false
  end.

Definition closes (c : Call) : bool :=
  match c with
  | CallGroupEnd => true
  | _ => false
  end.

Definition counts_label (label : jsstring) (c : Call) : bool :=
  match c with
  | CallCount l => bool_decide (default (lit "<no label>") l = label)
  | _ => false
  end.

Definition occurrences (p : Call → bool) (calls : list Call) : Z :=
  Z.of_nat (length (filter (fun c => p c = true) calls)).

(** The lines among the events. *)
Definition lines (out : list Event) : list jsstring :=
  omap (fun e => match e with WriteLine l => Some l | ClearLine => None end) out.

(** An array or an object: what [table] draws. *)
Definition is_collection (data : JsValue) : bool :=
  match data with
  | JArr _ | JObj _ => true
  | _ => false
  end.

(** ** The earlier revision of the class

    The first copy of the class in the source file.  It differs from the
    later one in the indentation marker, the test of [assert], the guard
    and the key measure of [table], the start value of [max], the
    separator row and the character of the bottom border. *)

Module Rev1.

(** [max] starting from [null]: the first value replaces it. *)
Fixpoint max_from {A} (maxEval : option Z) (arr : list A)
    (evaluator : A → JsError + Z) : JsError + option Z :=
  match arr with
  | [] => inr maxEval
  | el :: rest =>
      match evaluator el with
      | inl e => inl e
      | inr evaluatedValue =>
          max_from (Some (match maxEval with
                          | None => evaluatedValue
                          | Some m => Z.max m evaluatedValue
                          end)) rest evaluator
      end
  end.

Definition max {A} (arr : list A) (evaluator : A → JsError + Z)
  : JsError + option Z :=
  max_from None arr evaluator.

(** [Math.max(m, n)] where [m] may be [null], which counts as 0. *)
Definition Math_max_null (m : option Z) (n : Z) : Z :=
  Z.max (default 0 m) n.

Definition stringify_length (value : JsValue) : JsError + Z :=
  match stringify value with
  | inl e => inl e
  | inr s => inr (String_length s)
  end.

(** The three code units U+00E2 U+20AC U+00BE that the source has for the
    bottom border. *)
Definition border : jsstring := [226%N; 8364%N; 190%N].

(** [this._outWidth = stdout.columns], for a stream that reports a column
    count. *)
Definition new_CustomConsole (stdout : Writable) (formatBuffer : option Formatter)
  : Console :=
  {| _formatBuffer := default (fun _ message => message) formatBuffer;
     _groupLevel := 0;
     _counts := ∅;
     _outWidth := columns stdout |}.

Section Methods.

Variable format_inspect : list JsValue → jsstring.

Definition _log (type : LogType) (message : jsstring) : Js unit :=
  clearLine ;;
  groupIndentation ← (self ← this;
                      liftE (String_repeat (lit " > ") (_groupLevel self)));
  self ← this;
  super_log (groupIndentation ++ _formatBuffer self type message).

Definition log (args : list JsValue) : Js unit :=
  _log TLog (format format_inspect args).

Definition assert (assertion : JsValue) (args : list JsValue) : Js unit :=
  if truthy assertion then log args else mret ().

Definition count (label : option jsstring) : Js unit :=
  let label := default (lit "<no label>") label in
  self ← this;
  (if negb (Slot_truthy (counts_get (_counts self) label))
   then set_counts (counts_set (_counts self) label (CNum 0))
   else mret ()) ;;
  self ← this;
  set_counts (counts_set (_counts self) label
    (CountNumber_succ (Slot_toNumber (counts_get (_counts self) label)))) ;;
  self ← this;
  _log TLog (label ++ lit ": " ++ Slot_toString (counts_get (_counts self) label)).

Definition error (args : list JsValue) : Js unit :=
  _log TError (format format_inspect args).

Definition group (label : option jsstring) : Js unit :=
  self ← this;
  set_groupLevel (_groupLevel self + 1) ;;
  match label with
  | Some l => if truthy (JStr l) then log [JStr l] else mret ()
  | None => mret ()
  end.

Definition groupCollapsed (arguments : list JsValue) : Js unit :=
  group None.

Definition groupEnd : Js unit :=
  self ← this;
  set_groupLevel (_groupLevel self - 1).

Definition info (args : list JsValue) : Js unit :=
  _log TInfo (format format_inspect args).

Definition warn (args : list JsValue) : Js unit :=
  _log TWarn (format format_inspect args).

Definition table_row (data : JsValue) (keyWidth valueWidth : Z)
    (key : jsstring) : Js unit :=
  value ← liftE (stringify (get_property data key));
  paddedKey ← liftE (pad key keyWidth);
  paddedValue ← liftE (pad value valueWidth);
  log [JStr (lit "| " ++ paddedKey ++ lit " | " ++ paddedValue ++ lit " |")].

Definition table (data : JsValue) (columns : option (list JsValue)) : Js unit :=
  if negb (bool_decide (typeof data = TyObject)) then mret ()
  else
    keys ← liftE (match data with
                  | JNull => inl TypeError
                  | _ => inr (Object_keys data)
                  end);
    maxKeyLen ← liftE (max keys (fun el => stringify_length (JStr el)));
    maxValueWidth ← liftE (max (Object_values data) stringify_length);
    self ← this;
    let widths :=
      fitWidths (_outWidth self)
        (Math_max_null maxKeyLen (String_length (lit "(index)")))
        (Math_max_null maxValueWidth (String_length (lit "Value"))) in
    let keyWidth := widths.1 in
    let valueWidth := widths.2 in
    let totalTableWidth := keyWidth + valueWidth + 7 in
    keyHeader ← liftE (pad (lit "(index)") keyWidth);
    valueHeader ← liftE (pad (lit "Value") valueWidth);
    top ← liftE (String_repeat (lit "_") totalTableWidth);
    log [JStr top] ;;
    log [JStr (lit "| " ++ keyHeader ++ lit " | " ++ valueHeader ++ lit " |")] ;;
    dashes ← liftE (String_repeat (lit "-") totalTableWidth);
    log [JStr dashes] ;;
    for_of keys (table_row data keyWidth valueWidth) ;;
    bottom ← liftE (String_repeat border totalTableWidth);
    log [JStr bottom].

End Methods.

End Rev1.

(** The indentation marker of a level. *)
Definition indentation (level : Z) : jsstring :=
  concat (replicate (Z.to_nat level) (lit "> ")).

(** A computation that leaves the console object as it found it. *)
Definition reads_only {A} (m : Js A) : Prop :=
  ∀ st, final (m st) = st.

(** What [count] leaves in [this._counts]: the slot is set to 0 when it
    reads falsy, then incremented. *)
Definition count_store (counts : gmap jsstring CountNumber) (label : jsstring)
  : gmap jsstring CountNumber :=
  let counts0 :=
    if negb (Slot_truthy (counts_get counts label))
    then counts_set counts label (CNum 0) else counts in
  counts_set counts0 label
    (CountNumber_succ (Slot_toNumber (counts_get counts0 label))).

(** A label that [Object.prototype] does not know. *)
Definition plain_label (label : jsstring) : Prop :=
  label ≠ proto_accessor ∧ label ∉ Object_prototype_methods.

(** ** The table as a list of lines

    What [table] is meant to hand to [log], written down on its own:
    [table_run] shows that the method writes these lines. *)

(** [pad] as a plain function. *)
Definition padded (str : jsstring) (width : Z) : jsstring :=
  if String_length str >? width then take (Z.to_nat width) str
  else str ++ replicate (Z.to_nat (width - String_length str)) 32%N.

Definition repeated (c : codeunit) (n : Z) : jsstring :=
  replicate (Z.to_nat n) c.

(** The text of a value's cell ([stringify] where it succeeds). *)
Definition cell_text (value : JsValue) : jsstring :=
  match stringify value with
  | inr s => s
  | inl _ => []
  end.

Definition rendered_row (data : JsValue) (keyWidth valueWidth : Z)
    (key : jsstring) : jsstring :=
  lit "| " ++ padded key keyWidth ++ lit " | "
  ++ padded (cell_text (get_property data key)) valueWidth ++ lit " |".

Definition rendered (data : JsValue) (keyWidth valueWidth : Z) : list jsstring :=
  [repeated 95%N (keyWidth + valueWidth + 7);
   lit "| " ++ padded (lit "(index)") keyWidth ++ lit " | "
   ++ padded (lit "Value") valueWidth ++ lit " |";
   lit "|" ++ repeated 45%N (keyWidth + 2) ++ lit "|"
   ++ repeated 45%N (valueWidth + 2) ++ lit "|"]
  ++ map (rendered_row data keyWidth valueWidth) (Object_keys data)
  ++ [repeated 8254%N (keyWidth + valueWidth + 7)].

(** The events of logging the messages one after the other. *)
Definition logged (st : Console) (messages : list jsstring) : list Event :=
  flat_map (fun message =>
              [ClearLine;
               WriteLine (indentation (_groupLevel st)
                          ++ _formatBuffer st TLog message)]) messages.

(** A computation that writes no line when the group level is negative. *)
Definition mute_below_zero {A} (m : Js A) : Prop :=
  ∀ st, _groupLevel st < 0 → lines (output (m st)) = [].

(** A text without a line feed. *)
Definition no_line_feed (s : jsstring) : Prop := Forall (fun c => c ≠ 10%N) s.

(** The order of the numbers with [-Infinity] below them. *)
Definition ExtZ_le (a b : ExtZ) : Prop :=
  match a, b with
  | NegInfinity, _ => True
  | Finite _, NegInfinity => False
  | Finite x, Finite y => x ≤ y
  end.

(** The lines of the table of the earlier revision: one unbroken separator
    row, and a bottom border of three code units to the column. *)
Definition rev1_rendered (data : JsValue) (keyWidth valueWidth : Z)
  : list jsstring :=
  [repeated 95%N (keyWidth + valueWidth + 7);
   lit "| " ++ padded (lit "(index)") keyWidth ++ lit " | "
   ++ padded (lit "Value") valueWidth ++ lit " |";
   repeated 45%N (keyWidth + valueWidth + 7)]
  ++ map (rendered_row data keyWidth valueWidth) (Object_keys data)
  ++ [concat (replicate (Z.to_nat (keyWidth + valueWidth + 7)) Rev1.border)].

(** The events of logging the messages in the earlier revision, whose
    indentation marker is [" > "]. *)
Definition rev1_logged (st : Console) (messages : list jsstring) : list Event :=
  flat_map (fun message =>
              [ClearLine;
               WriteLine (concat (replicate (Z.to_nat (_groupLevel st)) (lit " > "))
                          ++ _formatBuffer st TLog message)]) messages.

(** ** The click handler of the jQuery example

    What the callback handed to [fetchCurrentUser] reads of the user it is
    given, and the text it computes for the [#username] element:
[[
    const loggedText = 'Logged ' + (user.loggedIn ? 'In' : 'Out');
    $('#username').text(user.fullName + ' - ' + loggedText);
]] *)

Record User : Type := mkUser {
  loggedIn : JsValue;
  fullName : jsstring
}.

Definition loggedText (user : User) : jsstring :=
  lit "Logged " ++ (if truthy (loggedIn user) then lit "In" else lit "Out").

Definition usernameText (user : User) : jsstring :=
  fullName user ++ lit " - " ++ loggedText user.

(** * Properties *)

Example Number_toString_digits :
  Number_toString 0 = lit "0" ∧ Number_toString 120 = lit "120"
  ∧ Number_toString (-7) = lit "-7".
Proof. repeat split. Qed.

Example stringify_escapes :
  JSON_stringify (JStr [97%N; 10%N; 34%N; 1%N])
  = Some ([34%N] ++ lit "a\n\" ++ [34%N] ++ lit "\u0001" ++ [34%N]).
Proof. reflexivity. Qed.

Example stringify_object :
  JSON_stringify (JObj [(lit "a", JNum 1); (lit "b", JNum 2); (lit "c", JNum 3)])
  = Some (lit "{" ++ JSON_quote (lit "a") ++ lit ":1," ++ JSON_quote (lit "b")
            ++ lit ":2," ++ JSON_quote (lit "c") ++ lit ":3}").
Proof. reflexivity. Qed.

(** ** Running the monad *)

Lemma bind_run {A B} (m : Js A) (f : A → Js B) (st : Console) :
  (m ≫= f) st =
  match completion (m st) with
  | inl e => mkOutcome (inl e) (final (m st)) (output (m st))
  | inr x =>
      mkOutcome (completion (f x (final (m st)))) (final (f x (final (m st))))
                (output (m st) ++ output (f x (final (m st))))
  end.
Proof. reflexivity. Qed.

Lemma ret_run {A} (x : A) (st : Console) :
  (mret x : Js A) st = mkOutcome (inr x) st [].
Proof. reflexivity. Qed.

Lemma outcome_eta {A} (r : Outcome A) :
  mkOutcome (completion r) (final r) (output r) = r.
Proof. by destruct r. Qed.

Ltac run_js :=
  repeat (rewrite ?bind_run, ?ret_run; cbn [completion final output liftE this
            emit clearLine super_log set_groupLevel set_counts
            _groupLevel _counts _outWidth _formatBuffer app]).

(** ** Levelled logging *)

Lemma _log_run (type : LogType) (message : jsstring) (st : Console) :
  _log type message st =
  if _groupLevel st <? 0
  then mkOutcome (inl RangeError) st [ClearLine]
  else mkOutcome (inr ()) st
         [ClearLine;
          WriteLine (indentation (_groupLevel st) ++ _formatBuffer st type message)].
Proof.
  unfold _log, _generateIndentation, String_repeat.
  run_js. destruct (_groupLevel st <? 0); reflexivity.
Qed.

Lemma _log_final (type : LogType) (message : jsstring) (st : Console) :
  final (_log type message st) = st.
Proof. rewrite _log_run. by destruct (_groupLevel st <? 0). Qed.

Lemma _log_ok (type : LogType) (message : jsstring) (st : Console) :
  0 ≤ _groupLevel st →
  _log type message st =
  mkOutcome (inr ()) st
    [ClearLine;
     WriteLine (indentation (_groupLevel st) ++ _formatBuffer st type message)].
Proof.
  intros Hlevel. rewrite _log_run.
  destruct (Z.ltb_spec (_groupLevel st) 0); [lia | done].
Qed.

Lemma leveled_run format_inspect type args st :
  leveled format_inspect type args st = _log type (format format_inspect args) st.
Proof. by destruct type. Qed.

Lemma log_run format_inspect args st :
  log format_inspect args st = _log TLog (format format_inspect args) st.
Proof. reflexivity. Qed.

(** C1.  [assert] with a falsy assertion is [log] of the message: on a
    console whose group level is not negative it writes exactly one line,
    the indentation of the level followed by the formatter's rendering of
    the message at level [log], and leaves the console as it was.  With a
    truthy assertion it writes nothing and leaves the console as it was. *)
Theorem assert_logs_iff_falsy format_inspect (assertion : JsValue)
    (args : list JsValue) (st : Console) :
  0 ≤ _groupLevel st →
  (truthy assertion = false →
     assert format_inspect assertion args st = log format_inspect args st
     ∧ assert format_inspect assertion args st =
       mkOutcome (inr ()) st
         [ClearLine;
          WriteLine (indentation (_groupLevel st)
                     ++ _formatBuffer st TLog (format format_inspect args))])
  ∧ (truthy assertion = true →
     assert format_inspect assertion args st = mkOutcome (inr ()) st []).
Proof.
  intros Hlevel. unfold assert. split; intros ->; cbn [negb].
  - split; [done |]. by rewrite log_run, _log_ok.
  - reflexivity.
Qed.

Lemma assert_logs_iff_falsy_witness :
  let st := new_CustomConsole (mkWritable false 0) None in
  0 ≤ _groupLevel st
  ∧ assert (fun _ => []) (JBool false) [JStr (lit "x")] st
    = mkOutcome (inr ()) st [ClearLine; WriteLine (lit "x")]
  ∧ assert (fun _ => []) (JBool true) [JStr (lit "x")] st
    = mkOutcome (inr ()) st [].
Proof.
  intros st.
  assert (Hlevel : 0 ≤ _groupLevel st) by (cbn; lia).
  split; [exact Hlevel |].
  destruct (assert_logs_iff_falsy (fun _ => []) (JBool false) [JStr (lit "x")]
              st Hlevel) as [Hfalse _].
  destruct (assert_logs_iff_falsy (fun _ => []) (JBool true) [JStr (lit "x")]
              st Hlevel) as [_ Htrue].
  split; [exact (proj2 (Hfalse eq_refl)) | exact (Htrue eq_refl)].
Defined.

(** ** Methods that only read the console *)

Lemma reads_only_ret {A} (x : A) : reads_only (mret x : Js A).
Proof. by intros st. Qed.

Lemma reads_only_bind {A B} (m : Js A) (f : A → Js B) :
  reads_only m → (∀ x, reads_only (f x)) → reads_only (m ≫= f).
Proof.
  intros Hm Hf st. rewrite bind_run.
  destruct (completion (m st)) as [e|x]; cbn; [apply Hm |].
  by rewrite Hf, Hm.
Qed.

Lemma reads_only_liftE {A} (r : JsError + A) : reads_only (liftE r).
Proof. by intros st. Qed.

Lemma reads_only_this : reads_only this.
Proof. by intros st. Qed.

Lemma reads_only__log type message : reads_only (_log type message).
Proof. intros st. apply _log_final. Qed.

Lemma reads_only_log format_inspect args : reads_only (log format_inspect args).
Proof. apply reads_only__log. Qed.

Lemma reads_only_for_of {A} (arr : list A) (body : A → Js unit) :
  (∀ el, reads_only (body el)) → reads_only (for_of arr body).
Proof.
  intros Hbody. induction arr as [|el rest IH]; cbn [for_of].
  - apply reads_only_ret.
  - apply reads_only_bind; [apply Hbody | intros _; apply IH].
Qed.

Create HintDb reads_only.
#[local] Hint Resolve reads_only_ret reads_only_liftE reads_only_this
  reads_only__log reads_only_log : reads_only.

Ltac reads_only :=
  repeat first
    [ solve [auto with reads_only]
    | apply reads_only_for_of; intros ?
    | apply reads_only_bind; [| intros ?] ].

Lemma reads_only_table_row format_inspect data keyWidth valueWidth key :
  reads_only (table_row format_inspect data keyWidth valueWidth key).
Proof. unfold table_row. reads_only. Qed.

Lemma reads_only_table format_inspect data columns :
  reads_only (table format_inspect data columns).
Proof.
  unfold table.
  destruct (negb (truthy data) || negb (bool_decide (typeof data = TyObject)));
    [apply reads_only_ret |].
  reads_only.
Qed.

Lemma count_run (label : option jsstring) (st : Console) :
  let l := default (lit "<no label>") label in
  let st' := mkConsole (_formatBuffer st) (_groupLevel st)
               (count_store (_counts st) l) (_outWidth st) in
  let message := l ++ lit ": " ++ Slot_toString (counts_get (_counts st') l) in
  count label st =
  mkOutcome (completion (_log TLog message st')) st'
            (output (_log TLog message st')).
Proof.
  intros l st' message. unfold count. fold l. run_js.
  unfold count_store in st'. subst st' message.
  destruct (negb (Slot_truthy (counts_get (_counts st) l))); run_js;
    rewrite _log_final; reflexivity.
Qed.

Lemma count_final (label : option jsstring) (st : Console) :
  final (count label st) =
  mkConsole (_formatBuffer st) (_groupLevel st)
    (count_store (_counts st) (default (lit "<no label>") label)) (_outWidth st).
Proof. by rewrite count_run. Qed.

Lemma group_final format_inspect label st :
  final (group format_inspect label st) =
  mkConsole (_formatBuffer st) (_groupLevel st + 1) (_counts st) (_outWidth st).
Proof.
  unfold group. run_js.
  destruct label as [l|]; [destruct (truthy (JStr l)) |]; run_js;
    rewrite ?log_run, ?_log_final; reflexivity.
Qed.

Lemma groupEnd_run st :
  groupEnd st =
  mkOutcome (inr ())
    (mkConsole (_formatBuffer st) (_groupLevel st - 1) (_counts st) (_outWidth st)) [].
Proof. reflexivity. Qed.

(** ** Indentation groups *)

Lemma occurrences_nil (p : Call → bool) : occurrences p [] = 0.
Proof. reflexivity. Qed.

Lemma occurrences_cons (p : Call → bool) (c : Call) (calls : list Call) :
  occurrences p (c :: calls) = (if p c then 1 else 0) + occurrences p calls.
Proof.
  unfold occurrences. rewrite filter_cons.
  destruct (p c); case_decide; try done; cbn [length]; lia.
Qed.

Lemma occurrences_nonneg (p : Call → bool) (calls : list Call) :
  0 ≤ occurrences p calls.
Proof. unfold occurrences. lia. Qed.

Lemma console_eta (st : Console) :
  mkConsole (_formatBuffer st) (_groupLevel st) (_counts st) (_outWidth st) = st.
Proof. by destruct st. Qed.

(** The console that a call leaves behind, whether or not it throws. *)
Lemma invoke_final format_inspect (c : Call) (st : Console) :
  final (invoke format_inspect c st) =
  mkConsole (_formatBuffer st)
    (_groupLevel st + (if opens c then 1 else 0) - (if closes c then 1 else 0))
    (match c with
     | CallCount label =>
         count_store (_counts st) (default (lit "<no label>") label)
     | _ => _counts st
     end)
    (_outWidth st).
Proof.
  assert (Hsame : ∀ level, level = _groupLevel st →
            st = mkConsole (_formatBuffer st) level (_counts st) (_outWidth st)).
  { intros level ->. by rewrite console_eta. }
  destruct c; cbn [invoke opens closes].
  - unfold assert. destruct (negb (truthy assertion)); cbn [final];
      rewrite ?log_run, ?_log_final; apply Hsame; lia.
  - apply Hsame. lia.
  - rewrite count_final. f_equal. lia.
  - unfold error. rewrite _log_final. apply Hsame. lia.
  - unfold exception, error. rewrite _log_final. apply Hsame. lia.
  - rewrite group_final. f_equal. lia.
  - unfold groupCollapsed. rewrite group_final. f_equal. lia.
  - rewrite groupEnd_run. cbn [final]. f_equal. lia.
  - unfold info. rewrite _log_final. apply Hsame. lia.
  - rewrite log_run, _log_final. apply Hsame. lia.
  - rewrite reads_only_table. apply Hsame. lia.
  - unfold warn. rewrite _log_final. apply Hsame. lia.
  - rewrite bind_run. cbn. apply Hsame. lia.
Qed.

Lemma invoke_groupLevel format_inspect (c : Call) (st : Console) :
  _groupLevel (final (invoke format_inspect c st)) =
  _groupLevel st + (if opens c then 1 else 0) - (if closes c then 1 else 0).
Proof. by rewrite invoke_final. Qed.

Lemma invoke_formatBuffer format_inspect (c : Call) (st : Console) :
  _formatBuffer (final (invoke format_inspect c st)) = _formatBuffer st.
Proof. by rewrite invoke_final. Qed.

Lemma after_cons format_inspect c calls st :
  after format_inspect (c :: calls) st =
  after format_inspect calls (final (invoke format_inspect c st)).
Proof. reflexivity. Qed.

Lemma after_groupLevel format_inspect (calls : list Call) (st : Console) :
  _groupLevel (after format_inspect calls st) =
  _groupLevel st + occurrences opens calls - occurrences closes calls.
Proof.
  revert st. induction calls as [|c calls IH]; intros st.
  - cbn. rewrite !occurrences_nil. lia.
  - rewrite after_cons, IH, invoke_groupLevel, !occurrences_cons. lia.
Qed.

Lemma after_formatBuffer format_inspect (calls : list Call) (st : Console) :
  _formatBuffer (after format_inspect calls st) = _formatBuffer st.
Proof.
  revert st. induction calls as [|c calls IH]; intros st; [done |].
  by rewrite after_cons, IH, invoke_formatBuffer.
Qed.

(** C3.  After any sequence of calls on a new console the group level is
    the number of [group]/[groupCollapsed] calls minus the number of
    [groupEnd] calls, and a line that [log], [info], [warn] or [error]
    then writes is the marker ["> "] repeated that many times, followed
    directly by the formatter's rendering of the message.  When the
    number is not negative exactly that one line is written; when it is
    negative the call throws and writes no line. *)
Theorem indentation_is_net_group_depth format_inspect (calls : list Call)
    (stdout : Writable) (formatBuffer : option Formatter)
    (type : LogType) (args : list JsValue) :
  let st := after format_inspect calls (new_CustomConsole stdout formatBuffer) in
  let depth := occurrences opens calls - occurrences closes calls in
  let written := lines (output (leveled format_inspect type args st)) in
  _groupLevel st = depth
  ∧ (∀ line, line ∈ written →
       line = concat (replicate (Z.to_nat depth) (lit "> "))
              ++ _formatBuffer st type (format format_inspect args))
  ∧ (0 ≤ depth →
       written = [concat (replicate (Z.to_nat depth) (lit "> "))
                  ++ _formatBuffer st type (format format_inspect args)])
  ∧ (depth < 0 →
       completion (leveled format_inspect type args st) = inl RangeError
       ∧ written = []).
Proof.
  intros st depth written.
  assert (Hdepth : _groupLevel st = depth).
  { subst st depth. rewrite after_groupLevel. cbn. lia. }
  subst written. rewrite leveled_run, _log_run, Hdepth.
  split; [done |].
  destruct (Z.ltb_spec depth 0) as [Hneg|Hpos]; cbn.
  - repeat split; try done; try lia. intros line Hin. inversion Hin.
  - repeat split; try done; try lia.
    intros line Hin. apply list_elem_of_singleton in Hin. by subst.
Qed.

(** ** Counters *)

Lemma counts_get_plain (counts : gmap jsstring CountNumber) (label : jsstring) :
  plain_label label →
  counts_get counts label =
  match counts !! label with
  | Some c => SNumber c
  | None => SUndefined
  end.
Proof.
  intros [Hacc Hmeth]. unfold counts_get.
  destruct (counts !! label); [done |].
  by rewrite !bool_decide_eq_false_2.
Qed.

Lemma counts_set_plain (counts : gmap jsstring CountNumber) label c :
  plain_label label → counts_set counts label c = <[label := c]> counts.
Proof. intros [Hacc _]. unfold counts_set. by rewrite bool_decide_eq_false_2. Qed.

Lemma counts_set_other (counts : gmap jsstring CountNumber) label label' c :
  label' ≠ label → counts_set counts label c !! label' = counts !! label'.
Proof.
  intros Hne. unfold counts_set. case_bool_decide; [done |].
  by rewrite lookup_insert_ne.
Qed.

(** Counting one label leaves the count of every other label alone. *)
Lemma count_store_other (counts : gmap jsstring CountNumber) label label' :
  label' ≠ label → count_store counts label !! label' = counts !! label'.
Proof.
  intros Hne. unfold count_store. rewrite counts_set_other by done.
  destruct (negb _); [by rewrite counts_set_other | done].
Qed.

(** The count of a plain label goes from [n] to [n + 1]; no entry stands
    for a count of 0. *)
Lemma count_store_plain (counts : gmap jsstring CountNumber) label (n : Z) :
  plain_label label → 0 ≤ n →
  counts !! label = (if n =? 0 then None else Some (CNum n)) →
  count_store counts label !! label = Some (CNum (n + 1)).
Proof.
  intros Hplain Hn Hlookup. unfold count_store.
  rewrite (counts_get_plain counts) by done. rewrite Hlookup.
  destruct (Z.eqb_spec n 0) as [->|Hne]; cbn.
  - rewrite !counts_set_plain, counts_get_plain by done.
    by rewrite !lookup_insert_eq.
  - destruct (Z.eqb_spec n 0) as [|_]; [done |]. cbn.
    rewrite counts_set_plain, counts_get_plain by done.
    by rewrite Hlookup, lookup_insert_eq.
Qed.

Lemma invoke_counts_label format_inspect (c : Call) (st : Console) label (n : Z) :
  plain_label label → 0 ≤ n →
  _counts st !! label = (if n =? 0 then None else Some (CNum n)) →
  let n' := n + (if counts_label label c then 1 else 0) in
  _counts (final (invoke format_inspect c st)) !! label =
  (if n' =? 0 then None else Some (CNum n')).
Proof.
  intros Hplain Hn Hlookup n'. subst n'. rewrite invoke_final. cbn [_counts].
  destruct c; cbn [counts_label]; rewrite ?Z.add_0_r; try done.
  case_bool_decide as Hlabel.
  - rewrite Hlabel. rewrite (count_store_plain _ _ n) by done.
    destruct (Z.eqb_spec (n + 1) 0); [lia | done].
  - rewrite Z.add_0_r, count_store_other by done. done.
Qed.

Lemma after_counts_label format_inspect (calls : list Call) (st : Console)
    label (n : Z) :
  plain_label label → 0 ≤ n →
  _counts st !! label = (if n =? 0 then None else Some (CNum n)) →
  let n' := n + occurrences (counts_label label) calls in
  _counts (after format_inspect calls st) !! label =
  (if n' =? 0 then None else Some (CNum n')).
Proof.
  intros Hplain. revert st n.
  induction calls as [|c calls IH]; intros st n Hn Hlookup; cbn zeta.
  - by rewrite occurrences_nil, Z.add_0_r.
  - rewrite after_cons, occurrences_cons, Z.add_assoc.
    apply IH; [destruct (counts_label label c); lia |].
    by apply invoke_counts_label.
Qed.

Lemma no_label_plain : plain_label (lit "<no label>").
Proof.
  split; [done |].
  apply (bool_decide_eq_false_1 (lit "<no label>" ∈ Object_prototype_methods)).
  by vm_compute.
Qed.

(** The progression that [count] is meant to have, for the labels that
    [Object.prototype] does not know (the default label is one of them):
    after any sequence of calls on a new console in which the label was
    counted [n] times, counting it once more stores [n + 1], writes
    ["label: n+1"] at level [log] and leaves every other label's count
    alone. *)
Lemma count_progression format_inspect (calls : list Call) (stdout : Writable)
    (formatBuffer : option Formatter) (label : option jsstring) :
  let l := default (lit "<no label>") label in
  plain_label l →
  let st := after format_inspect calls (new_CustomConsole stdout formatBuffer) in
  let n := occurrences (counts_label l) calls in
  let r := count label st in
  _counts (final r) !! l = Some (CNum (n + 1))
  ∧ (∀ l', l' ≠ l → _counts (final r) !! l' = _counts st !! l')
  ∧ (0 ≤ _groupLevel st →
       lines (output r) =
       [indentation (_groupLevel st)
        ++ _formatBuffer st TLog (l ++ lit ": " ++ Number_toString (n + 1))]).
Proof.
  intros l Hplain st n r.
  assert (Hstored : _counts st !! l = (if n =? 0 then None else Some (CNum n))).
  { subst st n.
    pose proof (after_counts_label format_inspect calls
                  (new_CustomConsole stdout formatBuffer) l 0 Hplain) as H.
    cbn zeta in H. rewrite Z.add_0_l in H. apply H; [lia | done]. }
  assert (Hn : 0 ≤ n) by apply occurrences_nonneg.
  assert (Hnext : count_store (_counts st) l !! l = Some (CNum (n + 1)))
    by by apply count_store_plain.
  subst r. rewrite count_run. fold l. cbn [final output _counts].
  split; [done |]. split.
  - intros l' Hne. by apply count_store_other.
  - intros Hlevel. rewrite _log_ok by done. cbn.
    by rewrite (counts_get_plain _ l), Hnext.
Qed.

Lemma count_progression_no_label format_inspect (calls : list Call)
    (stdout : Writable) (formatBuffer : option Formatter) :
  let st := after format_inspect calls (new_CustomConsole stdout formatBuffer) in
  let n := occurrences (counts_label (lit "<no label>")) calls in
  _counts (final (count None st)) !! lit "<no label>" = Some (CNum (n + 1)).
Proof.
  intros st n.
  by destruct (count_progression format_inspect calls stdout formatBuffer None
                 no_label_plain) as [H _].
Qed.

(** C4.  On a new console [count("toString")] reads the inherited
    [Object.prototype.toString] where it expects its counter: the slot is
    truthy, so it is not set to 0, and incrementing a function gives [NaN].
    The first call stores [NaN] and writes ["toString: NaN"]; the second
    call starts from the falsy [NaN] and writes ["toString: 1"]. *)
Theorem count_inherited_label_is_NaN :
  let st := new_CustomConsole (mkWritable false 0) None in
  let first := count (Some (lit "toString")) st in
  let second := count (Some (lit "toString")) (final first) in
  lines (output first) = [lit "toString: NaN"]
  ∧ _counts (final first) !! lit "toString" = Some CNaN
  ∧ lines (output second) = [lit "toString: 1"].
Proof. vm_compute. done. Qed.

(** ** The width-fitting loop *)

(** [fitWidths] is the [while] loop: it satisfies the loop's unfolding. *)
Lemma fit_loop_enough (rounds : nat) (outWidth keyWidth valueWidth : Z) :
  keyWidth + valueWidth + 7 - outWidth ≤ Z.of_nat rounds →
  fit_loop rounds outWidth keyWidth valueWidth =
  fitWidths outWidth keyWidth valueWidth.
Proof.
  unfold fitWidths. revert keyWidth valueWidth.
  induction rounds as [|rounds IH]; intros k v Hrounds.
  - by replace (Z.to_nat (k + v + 7 - outWidth)) with O by lia.
  - destruct (Z.to_nat (k + v + 7 - outWidth)) as [|m] eqn:Hm; cbn [fit_loop].
    + destruct (Z.gtb_spec (k + v + 7) outWidth); [lia | done].
    + destruct (Z.gtb_spec (k + v + 7) outWidth); [| done].
      destruct (Z.gtb_spec v k).
      * rewrite IH by lia.
        by replace (Z.to_nat (k + (v - 1) + 7 - outWidth)) with m by lia.
      * rewrite IH by lia.
        by replace (Z.to_nat (k - 1 + v + 7 - outWidth)) with m by lia.
Qed.

Lemma fitWidths_unfold (outWidth keyWidth valueWidth : Z) :
  fitWidths outWidth keyWidth valueWidth =
  if keyWidth + valueWidth + 7 >? outWidth then
    if valueWidth >? keyWidth
    then fitWidths outWidth keyWidth (valueWidth - 1)
    else fitWidths outWidth (keyWidth - 1) valueWidth
  else (keyWidth, valueWidth).
Proof.
  destruct (Z.gtb_spec (keyWidth + valueWidth + 7) outWidth) as [Hgt|Hle].
  - unfold fitWidths at 1.
    destruct (Z.to_nat (keyWidth + valueWidth + 7 - outWidth)) as [|m] eqn:Hm;
      [lia |].
    cbn [fit_loop].
    destruct (Z.gtb_spec (keyWidth + valueWidth + 7) outWidth); [| lia].
    destruct (Z.gtb_spec valueWidth keyWidth); apply fit_loop_enough; lia.
  - unfold fitWidths.
    by replace (Z.to_nat (keyWidth + valueWidth + 7 - outWidth)) with O by lia.
Qed.

(** Induction over the rounds of the loop: a property that every round
    preserves holds of the fitted widths, and the loop condition fails
    there. *)
Lemma fitWidths_invariant (P : Z → Z → Prop) (outWidth : Z) :
  (∀ k v, k + v + 7 > outWidth → v > k → P k v → P k (v - 1)) →
  (∀ k v, k + v + 7 > outWidth → v ≤ k → P k v → P (k - 1) v) →
  ∀ keyWidth valueWidth, P keyWidth valueWidth →
  let w := fitWidths outWidth keyWidth valueWidth in
  P w.1 w.2 ∧ w.1 + w.2 + 7 ≤ outWidth.
Proof.
  intros Hvalue Hkey k v. cbn zeta.
  remember (Z.to_nat (k + v + 7 - outWidth)) as rounds eqn:Hrounds.
  revert k v Hrounds.
  induction rounds as [|rounds IH]; intros k v Hrounds HP;
    rewrite fitWidths_unfold.
  - destruct (Z.gtb_spec (k + v + 7) outWidth); [lia |]. cbn. split; [done | lia].
  - destruct (Z.gtb_spec (k + v + 7) outWidth); [| lia].
    destruct (Z.gtb_spec v k).
    + apply IH; [lia |]. apply Hvalue; [lia | lia | done].
    + apply IH; [lia |]. apply Hkey; [lia | lia | done].
Qed.

Lemma fitWidths_total (outWidth keyWidth valueWidth : Z) :
  let w := fitWidths outWidth keyWidth valueWidth in
  w.1 + w.2 + 7 = Z.min (keyWidth + valueWidth + 7) outWidth
  ∧ w.1 ≤ keyWidth ∧ w.2 ≤ valueWidth.
Proof.
  cbn zeta.
  destruct (fitWidths_invariant
    (fun k v => k ≤ keyWidth ∧ v ≤ valueWidth
                ∧ Z.min (keyWidth + valueWidth + 7) outWidth ≤ k + v + 7)
    outWidth) with (keyWidth := keyWidth) (valueWidth := valueWidth)
    as [(Hk & Hv & Hmin) Hfit]; [lia | lia | lia |].
  lia.
Qed.

Lemma fitWidths_fits_already (outWidth keyWidth valueWidth : Z) :
  keyWidth + valueWidth + 7 ≤ outWidth →
  fitWidths outWidth keyWidth valueWidth = (keyWidth, valueWidth).
Proof.
  intros Hfits. rewrite fitWidths_unfold.
  by destruct (Z.gtb_spec (keyWidth + valueWidth + 7) outWidth); [lia |].
Qed.

(** Neither width falls below [bound] as long as the output is wide
    enough for two columns of that width. *)
Lemma fitWidths_lower_bound (bound outWidth keyWidth valueWidth : Z) :
  2 * bound + 7 ≤ outWidth → bound ≤ keyWidth → bound ≤ valueWidth →
  let w := fitWidths outWidth keyWidth valueWidth in
  bound ≤ w.1 ∧ bound ≤ w.2.
Proof.
  intros Hwide Hk Hv. cbn zeta.
  destruct (fitWidths_invariant (fun k v => bound ≤ k ∧ bound ≤ v) outWidth)
    with (keyWidth := keyWidth) (valueWidth := valueWidth) as [H _];
    [lia | lia | lia | done].
Qed.

Lemma Math_max_fin_spec (a : ExtZ) (n : Z) :
  Math_max_fin a n = match a with NegInfinity => n | Finite z => Z.max z n end.
Proof. by destruct a. Qed.

Lemma Math_max_fin_ge (a : ExtZ) (n : Z) : n ≤ Math_max_fin a n.
Proof. rewrite Math_max_fin_spec. destruct a; lia. Qed.

(** A property that every round of the loop preserves holds after any
    number of rounds. *)
Lemma fit_loop_invariant (P : Z → Z → Prop) (outWidth : Z) :
  (∀ k v, k + v + 7 > outWidth → v > k → P k v → P k (v - 1)) →
  (∀ k v, k + v + 7 > outWidth → v ≤ k → P k v → P (k - 1) v) →
  ∀ rounds keyWidth valueWidth, P keyWidth valueWidth →
  P (fit_loop rounds outWidth keyWidth valueWidth).1
    (fit_loop rounds outWidth keyWidth valueWidth).2.
Proof.
  intros Hvalue Hkey rounds.
  induction rounds as [|rounds IH]; intros k v HP; cbn [fit_loop]; [done |].
  destruct (Z.gtb_spec (k + v + 7) outWidth); [| done].
  destruct (Z.gtb_spec v k); apply IH; [apply Hvalue | apply Hkey]; done || lia.
Qed.

(** C2, as the loop has it.  For every collection (whatever its longest
    key [maxKeyLen] and longest value [maxValueWidth]) and every output
    width, the loop ends with a total width of at most the output width:
    the natural total when that fits and the output width otherwise,
    whether or not the columns are still at the header lengths.  For an
    output width of at least 7 no round of the loop, the last one
    included, leaves a key width or a value width below zero. *)
Theorem fitted_widths_fit_and_nonneg_from_width_7 (outWidth : Z)
    (maxKeyLen maxValueWidth : ExtZ) :
  let keyWidth := Math_max_fin maxKeyLen (String_length (lit "(index)")) in
  let valueWidth := Math_max_fin maxValueWidth (String_length (lit "Value")) in
  let w := fitWidths outWidth keyWidth valueWidth in
  w.1 + w.2 + 7 ≤ outWidth
  ∧ w.1 + w.2 + 7 = Z.min (keyWidth + valueWidth + 7) outWidth
  ∧ (7 ≤ outWidth →
     0 ≤ w.1 ∧ 0 ≤ w.2
     ∧ ∀ rounds : nat,
         0 ≤ (fit_loop rounds outWidth keyWidth valueWidth).1
         ∧ 0 ≤ (fit_loop rounds outWidth keyWidth valueWidth).2).
Proof.
  intros keyWidth valueWidth w.
  pose proof (Math_max_fin_ge maxKeyLen (String_length (lit "(index)"))) as Hk.
  pose proof (Math_max_fin_ge maxValueWidth (String_length (lit "Value"))) as Hv.
  fold keyWidth in Hk. fold valueWidth in Hv.
  change (String_length (lit "(index)")) with 7 in Hk.
  change (String_length (lit "Value")) with 5 in Hv.
  destruct (fitWidths_total outWidth keyWidth valueWidth) as (Htotal & _ & _).
  fold w in Htotal.
  split; [lia |]. split; [done |]. intros Hwide.
  assert (Hrounds : ∀ rounds : nat,
            0 ≤ (fit_loop rounds outWidth keyWidth valueWidth).1
            ∧ 0 ≤ (fit_loop rounds outWidth keyWidth valueWidth).2).
  { intros rounds.
    apply (fit_loop_invariant (fun k v => 0 ≤ k ∧ 0 ≤ v) outWidth); lia. }
  split; [apply Hrounds |]. split; [apply Hrounds | done].
Qed.

Lemma fitted_widths_fit_and_nonneg_from_width_7_witness :
  7 ≤ 10
  ∧ let w := fitWidths 10
               (Math_max_fin NegInfinity (String_length (lit "(index)")))
               (Math_max_fin (Finite 21) (String_length (lit "Value"))) in
    w.1 + w.2 + 7 ≤ 10 ∧ 0 ≤ w.1 ∧ 0 ≤ w.2.
Proof.
  assert (Hwide : 7 ≤ 10) by lia.
  split; [exact Hwide |].
  destruct (fitted_widths_fit_and_nonneg_from_width_7 10 NegInfinity (Finite 21))
    as (Hfits & _ & Hnonneg).
  destruct (Hnonneg Hwide) as (Hkey & Hvalue & _).
  split; [exact Hfits |]. split; [exact Hkey | exact Hvalue].
Defined.

(** The claim of C2 as it is worded fails: the output width 1 is positive
    and the loop takes the widths of the empty table down to -3 and -3;
    already at output width 7 they are below the header lengths 7 and 5. *)
Lemma fitted_widths_negative_at_width_1 :
  ¬ (∀ (data : JsValue) (outWidth : Z) (mk mv : ExtZ),
       is_collection data = true → 0 < outWidth →
       maxKeyLen data = inr mk → maxValueWidth data = inr mv →
       let w := fitWidths outWidth
                  (Math_max_fin mk (String_length (lit "(index)")))
                  (Math_max_fin mv (String_length (lit "Value"))) in
       0 ≤ w.1 ∧ 0 ≤ w.2).
Proof.
  intros H.
  specialize (H (JArr []) 1 NegInfinity NegInfinity eq_refl ltac:(lia)
                eq_refl eq_refl).
  vm_compute in H. destruct H as [H _]. by apply H.
Qed.

(** At output width 7 the empty table keeps no column at all, and at the
    default width 80 its columns are the header lengths. *)
Example fitted_widths_of_empty_table :
  fitWidths 7 7 5 = (0, 0) ∧ fitWidths 18 7 5 = (6, 5)
  ∧ fitWidths 80 7 5 = (7, 5).
Proof. repeat split. Qed.

(** ** The helpers of [table] *)

Lemma String_repeat_unit (c : codeunit) (n : Z) :
  0 ≤ n → String_repeat [c] n = inr (repeated c n).
Proof.
  intros Hn. unfold String_repeat, repeated.
  destruct (Z.ltb_spec n 0); [lia |]. f_equal.
  induction (Z.to_nat n) as [|m IH]; [done |]. cbn. by rewrite IH.
Qed.

Lemma repeated_length (c : codeunit) (n : Z) :
  0 ≤ n → String_length (repeated c n) = n.
Proof. intros Hn. unfold String_length, repeated. rewrite length_replicate. lia. Qed.

(** [pad] never throws, and for a width that is not negative its result
    has exactly that width. *)
Lemma pad_ok (str : jsstring) (width : Z) :
  pad str width = inr (padded str width).
Proof.
  unfold pad, padded, String_substring0.
  destruct (Z.gtb_spec (String_length str) width) as [Hlong|Hshort]; [done |].
  change (lit " ") with [32%N]. rewrite String_repeat_unit; [done |].
  unfold String_length in *. lia.
Qed.

Lemma padded_length (str : jsstring) (width : Z) :
  0 ≤ width → String_length (padded str width) = width.
Proof.
  intros Hwidth. unfold padded, String_length.
  destruct (Z.gtb_spec (Z.of_nat (length str)) width) as [Hlong|Hshort].
  - rewrite length_take. lia.
  - rewrite length_app, length_replicate. lia.
Qed.

Lemma String_length_app (s t : jsstring) :
  String_length (s ++ t) = String_length s + String_length t.
Proof. unfold String_length. rewrite length_app. lia. Qed.

(** [max] returns a number when the evaluator does on every element, and
    the error of the first element on which it throws otherwise. *)
Lemma max_from_ok {A} (arr : list A) (evaluator : A → JsError + Z) (m : ExtZ) :
  (∀ el, el ∈ arr → ∃ z, evaluator el = inr z) →
  ∃ r, max_from m arr evaluator = inr r.
Proof.
  revert m. induction arr as [|el rest IH]; intros m Hall; cbn [max_from].
  - by eexists.
  - destruct (Hall el) as [z ->]; [by left |].
    apply IH. intros el' Hin. apply Hall. by right.
Qed.

Lemma max_from_inr {A} (arr : list A) (evaluator : A → JsError + Z) (m r : ExtZ) :
  max_from m arr evaluator = inr r →
  ∀ el, el ∈ arr → ∃ z, evaluator el = inr z.
Proof.
  revert m. induction arr as [|el rest IH]; intros m Hmax el' Hin.
  - inversion Hin.
  - cbn [max_from] in Hmax. destruct (evaluator el) as [e|z] eqn:Hel; [done |].
    apply elem_of_cons in Hin as [->|Hin]; [by eexists |].
    by eapply IH.
Qed.

(** [Math.max] against a finite floor, in terms of the elements: it is an
    upper bound of the floor and of every element's measure, and it is the
    floor or the measure of some element. *)
Lemma max_from_bounds {A} (arr : list A) (evaluator : A → JsError + Z)
    (m r : ExtZ) (floor : Z) :
  max_from m arr evaluator = inr r →
  Math_max_fin m floor ≤ Math_max_fin r floor
  ∧ (∀ el z, el ∈ arr → evaluator el = inr z → z ≤ Math_max_fin r floor)
  ∧ (Math_max_fin r floor = Math_max_fin m floor
     ∨ ∃ el, el ∈ arr ∧ evaluator el = inr (Math_max_fin r floor)).
Proof.
  revert m. induction arr as [|el rest IH]; intros m Hmax; cbn [max_from] in Hmax.
  - injection Hmax as <-. split; [lia |]. split; [| by left].
    intros el z Hin. inversion Hin.
  - destruct (evaluator el) as [e|z] eqn:Hel; [done |].
    destruct (IH _ Hmax) as (Hge & Hall & Hex).
    assert (Hstep : Math_max_fin (Math_max m (Finite z)) floor
                    = Z.max (Math_max_fin m floor) z).
    { rewrite !Math_max_fin_spec. destruct m; cbn; lia. }
    rewrite Hstep in Hge, Hex. split; [lia |]. split.
    + intros el' z' Hin Hel'. apply elem_of_cons in Hin as [->|Hin].
      * rewrite Hel in Hel'. injection Hel' as <-. lia.
      * by eapply Hall.
    + destruct Hex as [Heq|(el' & Hin & Hel')].
      * destruct (Z.max_spec (Math_max_fin m floor) z) as [[_ Hz]|[_ Hm]].
        -- right. exists el. split; [by left |]. rewrite Hel. f_equal. lia.
        -- left. lia.
      * right. exists el'. split; [by right | done].
Qed.

(** ** What [table] writes *)

Lemma bind_returns {A B} (m : Js A) (f : A → Js B) st x st1 out1 y st2 out2 :
  m st = mkOutcome (inr x) st1 out1 →
  f x st1 = mkOutcome (inr y) st2 out2 →
  (m ≫= f) st = mkOutcome (inr y) st2 (out1 ++ out2).
Proof. intros Hm Hf. rewrite bind_run, Hm. cbn. by rewrite Hf. Qed.

Lemma liftE_returns {A} (r : JsError + A) (x : A) st :
  r = inr x → liftE r st = mkOutcome (inr x) st [].
Proof. by intros ->. Qed.

Lemma this_returns st : this st = mkOutcome (inr st) st [].
Proof. reflexivity. Qed.

Lemma log_string_returns format_inspect (message : jsstring) (st : Console) :
  0 ≤ _groupLevel st →
  log format_inspect [JStr message] st = mkOutcome (inr ()) st (logged st [message]).
Proof. intros Hlevel. by rewrite log_run, _log_ok. Qed.

Lemma logged_cons st message messages :
  logged st (message :: messages) = logged st [message] ++ logged st messages.
Proof. reflexivity. Qed.

Lemma logged_app st messages messages' :
  logged st (messages ++ messages') = logged st messages ++ logged st messages'.
Proof. unfold logged. by rewrite flat_map_app. Qed.

Lemma lines_logged st messages :
  lines (logged st messages) =
  map (fun message => indentation (_groupLevel st) ++ _formatBuffer st TLog message)
      messages.
Proof. induction messages as [|m rest IH]; [done |]. cbn. by rewrite <- IH. Qed.

Lemma get_property_in_values (data : JsValue) (key : jsstring) :
  key ∈ Object_keys data → get_property data key ∈ Object_values data.
Proof.
  unfold get_property, Object_keys, Object_values.
  induction (Object_entries data) as [|[k v] entries IH]; intros Hin.
  - inversion Hin.
  - cbn [map find fst snd]. case_bool_decide as Hk; [by left |].
    right. apply IH. cbn in Hin. apply elem_of_cons in Hin as [->|Hin]; done.
Qed.

Lemma maxValueWidth_values (data : JsValue) (mv : ExtZ) :
  maxValueWidth data = inr mv →
  ∀ value, value ∈ Object_values data →
  ∃ s, stringify value = inr s.
Proof.
  intros Hmv value Hin.
  destruct (max_from_inr _ _ _ _ Hmv value Hin) as [z Hz].
  destruct (stringify value) as [e|s]; [done | by eexists].
Qed.

Lemma table_row_returns format_inspect data keyWidth valueWidth key st :
  0 ≤ _groupLevel st →
  (∃ s, stringify (get_property data key) = inr s) →
  table_row format_inspect data keyWidth valueWidth key st =
  mkOutcome (inr ()) st (logged st [rendered_row data keyWidth valueWidth key]).
Proof.
  intros Hlevel [s Hs]. unfold table_row, rendered_row, cell_text.
  rewrite Hs.
  eapply eq_trans.
  { eapply bind_returns; [reflexivity |].
    eapply bind_returns; [apply liftE_returns, pad_ok |].
    eapply bind_returns; [apply liftE_returns, pad_ok |].
    by apply log_string_returns. }
  reflexivity.
Qed.

Lemma table_rows_return format_inspect data keyWidth valueWidth keys st :
  0 ≤ _groupLevel st →
  (∀ key, key ∈ keys → ∃ s, stringify (get_property data key) = inr s) →
  for_of keys (table_row format_inspect data keyWidth valueWidth) st =
  mkOutcome (inr ()) st
    (logged st (map (rendered_row data keyWidth valueWidth) keys)).
Proof.
  intros Hlevel. induction keys as [|key keys IH]; intros Hkeys; [done |].
  cbn [for_of map]. rewrite logged_cons.
  eapply bind_returns.
  - apply table_row_returns; [done |]. apply Hkeys. by left.
  - apply IH. intros key' Hin. apply Hkeys. by right.
Qed.

Lemma table_guard (data : JsValue) :
  negb (truthy data) || negb (bool_decide (typeof data = TyObject))
  = negb (is_collection data).
Proof. destruct data; cbn; try reflexivity; apply orb_true_r. Qed.

(** [table] on a collection whose values all have a JSON text, at a group
    level that is not negative and with fitted widths of at least -2,
    writes the lines of [rendered] through [log] and returns. *)
Lemma table_run format_inspect data columns st mk mv :
  is_collection data = true →
  maxKeyLen data = inr mk →
  maxValueWidth data = inr mv →
  0 ≤ _groupLevel st →
  let w := fitWidths (_outWidth st)
             (Math_max_fin mk (String_length (lit "(index)")))
             (Math_max_fin mv (String_length (lit "Value"))) in
  -2 ≤ w.1 → -2 ≤ w.2 →
  table format_inspect data columns st =
  mkOutcome (inr ()) st (logged st (rendered data w.1 w.2)).
Proof.
  intros Hdata Hmk Hmv Hlevel w Hk Hv.
  unfold table. rewrite table_guard, Hdata. cbn [negb].
  eapply eq_trans.
  { eapply bind_returns; [apply liftE_returns, Hmk |].
    eapply bind_returns; [apply liftE_returns, Hmv |].
    eapply bind_returns; [apply this_returns |].
    cbn zeta. fold w.
    eapply bind_returns; [apply liftE_returns, pad_ok |].
    eapply bind_returns; [apply liftE_returns, pad_ok |].
    eapply bind_returns;
      [apply liftE_returns, (String_repeat_unit 95%N); lia |].
    eapply bind_returns; [by apply log_string_returns |].
    eapply bind_returns; [by apply log_string_returns |].
    eapply bind_returns;
      [apply liftE_returns, (String_repeat_unit 45%N); lia |].
    eapply bind_returns;
      [apply liftE_returns, (String_repeat_unit 45%N); lia |].
    eapply bind_returns; [by apply log_string_returns |].
    eapply bind_returns.
    { apply table_rows_return; [done |]. intros key Hin.
      eapply maxValueWidth_values; [done |]. by apply get_property_in_values. }
    eapply bind_returns;
      [apply liftE_returns, (String_repeat_unit 8254%N); lia |].
    by apply log_string_returns. }
  unfold rendered. rewrite !logged_app. cbn [app]. reflexivity.
Qed.

Lemma table_skips (format_inspect : list JsValue → jsstring) data columns st :
  is_collection data = false →
  table format_inspect data columns st = mkOutcome (inr ()) st [].
Proof. intros Hdata. unfold table. by rewrite table_guard, Hdata. Qed.

(** C8.  [table] of anything that is not an array or an object ([null],
    [undefined], a number, a string, a boolean) returns at once: nothing is
    written, nothing is thrown and the console is as it was. *)
Theorem table_ignores_non_collections format_inspect (data : JsValue)
    (columns : option (list JsValue)) (st : Console) :
  is_collection data = false →
  table format_inspect data columns st = mkOutcome (inr ()) st [].
Proof.
  intros Hdata. unfold table.
  assert (Hguard : negb (truthy data)
                   || negb (bool_decide (typeof data = TyObject)) = true)
    by by rewrite table_guard, Hdata.
  by rewrite Hguard.
Qed.

Lemma table_ignores_non_collections_witness :
  let st := new_CustomConsole (mkWritable false 0) None in
  is_collection JNull = false
  ∧ table (fun _ => []) JNull None st = mkOutcome (inr ()) st []
  ∧ table (fun _ => []) JUndefined None st = mkOutcome (inr ()) st []
  ∧ table (fun _ => []) (JStr (lit "hello")) None st = mkOutcome (inr ()) st []
  ∧ table (fun _ => []) (JNum 3) None st = mkOutcome (inr ()) st []
  ∧ table (fun _ => []) (JBool true) None st = mkOutcome (inr ()) st [].
Proof.
  intros st. split; [reflexivity |].
  split; [exact (table_ignores_non_collections _ JNull None st eq_refl) |].
  split; [exact (table_ignores_non_collections _ JUndefined None st eq_refl) |].
  split; [exact (table_ignores_non_collections _ (JStr (lit "hello")) None st
                   eq_refl) |].
  split; [exact (table_ignores_non_collections _ (JNum 3) None st eq_refl) |].
  exact (table_ignores_non_collections _ (JBool true) None st eq_refl).
Defined.

Lemma index_header_length : String_length (lit "(index)") = 7.
Proof. reflexivity. Qed.

Lemma value_header_length : String_length (lit "Value") = 5.
Proof. reflexivity. Qed.

Lemma maxKeyLen_ok (data : JsValue) : ∃ mk, maxKeyLen data = inr mk.
Proof. apply max_from_ok. intros el _. by eexists. Qed.

Lemma maxKeyLen_empty (data : JsValue) :
  Object_entries data = [] → maxKeyLen data = inr NegInfinity.
Proof. unfold maxKeyLen, Object_keys. by intros ->. Qed.

Lemma maxValueWidth_empty (data : JsValue) :
  Object_entries data = [] → maxValueWidth data = inr NegInfinity.
Proof. unfold maxValueWidth, Object_values. by intros ->. Qed.

(** C9.  On a console that is at least as wide as the 19 columns of the
    empty table (80 is the default) and whose group level is not negative,
    [table([])] and [table({})] write exactly four lines through [log]: a
    top border of 19 underscores, the header [| (index) | Value |], the
    separator [|---------|-------|] and a bottom border of 19 overlines. *)
Theorem table_of_empty_collection format_inspect (data : JsValue)
    (columns : option (list JsValue)) (st : Console) :
  data = JArr [] ∨ data = JObj [] →
  19 ≤ _outWidth st →
  0 ≤ _groupLevel st →
  table format_inspect data columns st =
  mkOutcome (inr ()) st
    (logged st [repeated 95%N 19;
                lit "| (index) | Value |";
                lit "|---------|-------|";
                repeated 8254%N 19]).
Proof.
  intros Hdata Hwide Hlevel.
  assert (Hentries : Object_entries data = []) by by destruct Hdata as [-> | ->].
  assert (Hcoll : is_collection data = true) by by destruct Hdata as [-> | ->].
  pose proof (table_run format_inspect data columns st NegInfinity NegInfinity
                Hcoll (maxKeyLen_empty _ Hentries)
                (maxValueWidth_empty _ Hentries) Hlevel) as Hrun.
  cbn zeta in Hrun.
  rewrite index_header_length, value_header_length in Hrun.
  cbn [Math_max_fin Math_max] in Hrun.
  rewrite fitWidths_fits_already in Hrun by lia.
  rewrite Hrun by (cbn [fst snd]; lia).
  unfold rendered, Object_keys. rewrite Hentries. reflexivity.
Qed.

(** The claim of C9 as it is worded fails on a narrower console: at the
    positive output width 18 the key column is cut to 6 and the header of
    [table([])] is [| (index | Value |]. *)
Lemma table_of_empty_collection_at_width_18 :
  let st := new_CustomConsole (mkWritable true 18) None in
  0 < _outWidth st
  ∧ lines (output (table (fun _ => []) (JArr []) None st)) =
    [repeated 95%N 18; lit "| (index | Value |"; lit "|--------|-------|";
     repeated 8254%N 18]
  ∧ lit "| (index | Value |" ≠ lit "| (index) | Value |".
Proof. vm_compute. repeat split. discriminate. Qed.

Lemma table_of_empty_collection_witness :
  let st := new_CustomConsole (mkWritable false 0) None in
  (JArr [] = JArr [] ∨ JArr [] = JObj [])
  ∧ 19 ≤ _outWidth st
  ∧ 0 ≤ _groupLevel st
  ∧ lines (output (table (fun _ => []) (JArr []) None st)) =
    [repeated 95%N 19; lit "| (index) | Value |"; lit "|---------|-------|";
     repeated 8254%N 19].
Proof.
  intros st.
  assert (Hdata : JArr [] = JArr [] ∨ JArr [] = JObj []) by (left; reflexivity).
  assert (Hwide : 19 ≤ _outWidth st) by (cbn; lia).
  assert (Hlevel : 0 ≤ _groupLevel st) by (cbn; lia).
  split; [exact Hdata |]. split; [exact Hwide |]. split; [exact Hlevel |].
  rewrite (table_of_empty_collection (fun _ => []) (JArr []) None st
             Hdata Hwide Hlevel).
  reflexivity.
Defined.

(** ** Below group level 0 nothing is written *)

Lemma lines_app (out out' : list Event) :
  lines (out ++ out') = lines out ++ lines out'.
Proof. unfold lines. apply omap_app. Qed.

Lemma mute_ret {A} (x : A) : mute_below_zero (mret x : Js A).
Proof. by intros st _. Qed.

Lemma mute_liftE {A} (r : JsError + A) : mute_below_zero (liftE r).
Proof. by intros st _. Qed.

Lemma mute_this : mute_below_zero this.
Proof. by intros st _. Qed.

Lemma mute__log type message : mute_below_zero (_log type message).
Proof.
  intros st Hlevel. rewrite _log_run.
  by destruct (Z.ltb_spec (_groupLevel st) 0); [| lia].
Qed.

Lemma mute_log format_inspect args : mute_below_zero (log format_inspect args).
Proof. apply mute__log. Qed.

Lemma mute_bind {A B} (m : Js A) (f : A → Js B) :
  reads_only m → mute_below_zero m → (∀ x, mute_below_zero (f x)) →
  mute_below_zero (m ≫= f).
Proof.
  intros Hreads Hm Hf st Hlevel. rewrite bind_run.
  destruct (completion (m st)) as [e|x]; cbn [output]; [by apply Hm |].
  rewrite lines_app, Hm, Hreads, Hf; done.
Qed.

Lemma mute_for_of {A} (arr : list A) (body : A → Js unit) :
  (∀ el, reads_only (body el)) → (∀ el, mute_below_zero (body el)) →
  mute_below_zero (for_of arr body).
Proof.
  intros Hreads Hbody. induction arr as [|el rest IH]; cbn [for_of].
  - apply mute_ret.
  - apply mute_bind; [apply Hreads | apply Hbody | intros _; apply IH].
Qed.

#[local] Hint Resolve mute_ret mute_liftE mute_this mute__log mute_log
  reads_only_table_row : reads_only.

Ltac mute :=
  repeat first
    [ solve [auto with reads_only]
    | apply mute_for_of; intros ?
    | apply mute_bind; [solve [reads_only] | | intros ?] ].

Lemma mute_table_row format_inspect data keyWidth valueWidth key :
  mute_below_zero (table_row format_inspect data keyWidth valueWidth key).
Proof. unfold table_row. mute. Qed.

#[local] Hint Resolve mute_table_row : reads_only.

Lemma mute_table format_inspect data columns :
  mute_below_zero (table format_inspect data columns).
Proof.
  unfold table.
  destruct (negb (truthy data) || negb (bool_decide (typeof data = TyObject)));
    [apply mute_ret |].
  mute.
Qed.

(** ** The width of the lines of a table *)

Lemma rendered_lengths (data : JsValue) (keyWidth valueWidth : Z) :
  0 ≤ keyWidth → 0 ≤ valueWidth →
  ∀ message, message ∈ rendered data keyWidth valueWidth →
  String_length message = keyWidth + valueWidth + 7.
Proof.
  intros Hk Hv message Hin. unfold rendered in Hin.
  rewrite !elem_of_app, !elem_of_cons, list_elem_of_fmap in Hin.
  destruct Hin as [[->|[->|[->|Hnil]]]|[(key & -> & _)|[->|Hnil]]];
    try (by inversion Hnil);
    unfold rendered_row;
    rewrite ?String_length_app, ?padded_length, ?repeated_length by lia;
    change (String_length (lit "| ")) with 2;
    change (String_length (lit " | ")) with 3;
    change (String_length (lit " |")) with 2;
    change (String_length (lit "|")) with 1; lia.
Qed.

(** C10.  Let the fitted key and value widths of a table both be
    non-negative.  Then every line that [table] writes is the indentation
    and the formatter applied to a message of exactly
    [keyWidth + valueWidth + 7] code units; with the default formatter at
    group level 0 the written line itself has that length. *)
Theorem table_lines_have_total_width format_inspect (data : JsValue)
    (columns : option (list JsValue)) (st : Console) (mk mv : ExtZ) :
  maxKeyLen data = inr mk →
  maxValueWidth data = inr mv →
  let w := fitWidths (_outWidth st)
             (Math_max_fin mk (String_length (lit "(index)")))
             (Math_max_fin mv (String_length (lit "Value"))) in
  0 ≤ w.1 → 0 ≤ w.2 →
  ∀ line, line ∈ lines (output (table format_inspect data columns st)) →
  ∃ message,
    line = indentation (_groupLevel st) ++ _formatBuffer st TLog message
    ∧ String_length message = w.1 + w.2 + 7
    ∧ (_groupLevel st = 0 → (∀ m, _formatBuffer st TLog m = m) →
       String_length line = w.1 + w.2 + 7).
Proof.
  intros Hmk Hmv w Hk Hv line Hin.
  destruct (is_collection data) eqn:Hdata.
  2:{ rewrite table_skips in Hin by done. inversion Hin. }
  destruct (Z.lt_ge_cases (_groupLevel st) 0) as [Hneg|Hlevel].
  { rewrite mute_table in Hin by done. inversion Hin. }
  rewrite (table_run format_inspect data columns st mk mv) in Hin
    by (try done; fold w; lia).
  fold w in Hin. cbn [output] in Hin.
  rewrite lines_logged in Hin. apply list_elem_of_fmap in Hin as (message & -> & Hin).
  pose proof (rendered_lengths data w.1 w.2 Hk Hv message Hin) as Hlen.
  exists message. split; [done |]. split; [done |].
  intros -> Hid. by rewrite Hid.
Qed.

Lemma table_lines_have_total_width_witness :
  let st := new_CustomConsole (mkWritable true 30) None in
  let data := JArr [JObj [(lit "a", JNum 1); (lit "b", JNum 2)]; JNum 4] in
  maxKeyLen data = inr (Finite 1)
  ∧ maxValueWidth data = inr (Finite 13)
  ∧ fitWidths (_outWidth st) 7 13 = (7, 13)
  ∧ ∀ line, line ∈ lines (output (table (fun _ => []) data None st)) →
    ∃ message,
      line = indentation (_groupLevel st) ++ _formatBuffer st TLog message
      ∧ String_length message = 7 + 13 + 7
      ∧ (_groupLevel st = 0 → (∀ m, _formatBuffer st TLog m = m) →
         String_length line = 7 + 13 + 7).
Proof.
  intros st data.
  split; [reflexivity |]. split; [reflexivity |]. split; [reflexivity |].
  apply (table_lines_have_total_width (fun _ => []) data None st
           (Finite 1) (Finite 13) eq_refl eq_refl).
  - vm_compute. discriminate.
  - vm_compute. discriminate.
Defined.

(** ** Completion *)

Lemma maxValueWidth_ok (data : JsValue) :
  (∀ value, value ∈ Object_values data → JSON_stringify value ≠ None) →
  ∃ mv, maxValueWidth data = inr mv.
Proof.
  intros Hvalues. apply max_from_ok. intros value Hin.
  specialize (Hvalues value Hin). unfold stringify.
  destruct (JSON_stringify value); [by eexists | done].
Qed.

Lemma group_run format_inspect (label : option jsstring) (st : Console) :
  0 ≤ _groupLevel st →
  let st' := mkConsole (_formatBuffer st) (_groupLevel st + 1) (_counts st)
               (_outWidth st) in
  group format_inspect label st =
  mkOutcome (inr ()) st'
    (match label with
     | Some l => if truthy (JStr l) then logged st' [l] else []
     | None => []
     end).
Proof.
  intros Hlevel st'. unfold group. run_js. fold st'.
  destruct label as [l|]; [destruct (truthy (JStr l)) |]; run_js; try done.
  rewrite log_string_returns by (cbn; lia). reflexivity.
Qed.

(** [table] completes on a collection whose values all have a JSON text
    when the output is at least 3 wide. *)
Lemma table_completes format_inspect data columns st :
  0 ≤ _groupLevel st →
  3 ≤ _outWidth st →
  (∀ value, value ∈ Object_values data → JSON_stringify value ≠ None) →
  completion (table format_inspect data columns st) = inr ().
Proof.
  intros Hlevel Hwide Hvalues.
  destruct (is_collection data) eqn:Hdata; [| by rewrite table_skips].
  destruct (maxKeyLen_ok data) as [mk Hmk].
  destruct (maxValueWidth_ok data Hvalues) as [mv Hmv].
  pose proof (Math_max_fin_ge mk (String_length (lit "(index)"))) as Hk.
  pose proof (Math_max_fin_ge mv (String_length (lit "Value"))) as Hv.
  pose proof index_header_length as Hindex.
  pose proof value_header_length as Hvalue.
  destruct (fitWidths_lower_bound (-2) (_outWidth st)
              (Math_max_fin mk (String_length (lit "(index)")))
              (Math_max_fin mv (String_length (lit "Value")))) as [H1 H2];
    [lia | lia | lia |].
  by rewrite (table_run format_inspect data columns st mk mv).
Qed.

(** Where the calls do return: on a console whose group level is not
    negative every call returns without throwing, provided that a [table]
    call on an array or object finds an output width of at least 3 and a
    JSON text for every value of the collection. *)
Theorem calls_complete format_inspect (c : Call) (st : Console) :
  0 ≤ _groupLevel st →
  (∀ data columns, c = CallTable data columns → is_collection data = true →
     3 ≤ _outWidth st
     ∧ ∀ value, value ∈ Object_values data → JSON_stringify value ≠ None) →
  completion (invoke format_inspect c st) = inr ().
Proof.
  intros Hlevel Htable.
  destruct c; cbn [invoke];
    unfold assert, exception, error, info, warn, groupCollapsed, clear;
    rewrite ?log_run, ?count_run, ?group_run by done;
    rewrite ?_log_ok by done; try reflexivity.
  - by destruct (negb (truthy assertion)); rewrite ?log_run, ?_log_ok.
  - destruct (is_collection data) eqn:Hdata; [| by rewrite table_skips].
    destruct (Htable _ _ eq_refl Hdata) as [Hwide Hvalues].
    by apply table_completes.
Qed.

Lemma calls_complete_witness :
  let st := new_CustomConsole (mkWritable true 12) None in
  let c := CallTable (JArr [JNum 4; JStr (lit "four")]) None in
  0 ≤ _groupLevel st
  ∧ 3 ≤ _outWidth st
  ∧ completion (invoke (fun _ => []) c st) = inr ().
Proof.
  intros st c.
  assert (Hlevel : 0 ≤ _groupLevel st) by (cbn; lia).
  assert (Hwide : 3 ≤ _outWidth st) by (cbn; lia).
  split; [exact Hlevel |]. split; [exact Hwide |].
  apply (calls_complete (fun _ => []) c st Hlevel).
  intros data columns Hc _. split; [exact Hwide |].
  injection Hc as <- _. intros value Hin.
  cbn in Hin. apply elem_of_cons in Hin as [->|Hin]; [discriminate |].
  apply elem_of_cons in Hin as [->|Hin]; [discriminate |].
  inversion Hin.
Defined.

(** Not every [table] call on a collection returns: an array that holds
    [undefined] is an array, 80 is a positive width, and [table] throws. *)
Lemma table_throws_on_undefined_value :
  ¬ (∀ format_inspect data columns st,
       is_collection data = true → 0 < _outWidth st → 0 ≤ _groupLevel st →
       completion (table format_inspect data columns st) = inr ()).
Proof.
  intros H.
  specialize (H (fun _ => []) (JArr [JUndefined]) None
                (new_CustomConsole (mkWritable false 0) None)
                eq_refl ltac:(cbn; lia) ltac:(cbn; lia)).
  vm_compute in H. discriminate H.
Qed.

(** A positive output width below 3 makes the separator row ask for a
    negative number of dashes: [table] throws a [RangeError] after the top
    border and the header. *)
Lemma table_throws_at_width_1 :
  let st := new_CustomConsole (mkWritable true 1) None in
  completion (table (fun _ => []) (JArr []) None st) = inl RangeError
  ∧ lines (output (table (fun _ => []) (JArr []) None st)) =
    [lit "_"; lit "|  |  |"].
Proof. vm_compute. done. Qed.

(** C5.  [table] does not return on every array: on a new console, whose
    output width is 80, [table([undefined])] throws a [TypeError] before it
    has written anything, because [stringify], which is to convert any
    data to a readable string, calls [replace] on the [undefined] that
    [JSON.stringify(undefined)] gives.  And on a console of the positive
    output width 2, [table([])] throws a [RangeError] after the header,
    because the loop that is to make the table fit has taken the key width
    to -3 and the separator row asks for -1 dashes. *)
Theorem table_throws_on_array_input :
  let st := new_CustomConsole (mkWritable false 0) None in
  let narrow := new_CustomConsole (mkWritable true 2) None in
  stringify JUndefined = inl TypeError
  ∧ table (fun _ => []) (JArr [JUndefined]) None st
    = mkOutcome (inl TypeError) st []
  ∧ 0 < _outWidth narrow
  ∧ fitWidths (_outWidth narrow) 7 5 = (-3, -2)
  ∧ completion (table (fun _ => []) (JArr []) None narrow) = inl RangeError
  ∧ lines (output (table (fun _ => []) (JArr []) None narrow))
    = [lit "__"; lit "|  |  |"].
Proof. vm_compute. repeat split. Qed.

(** ** JSON text has no line feed

    [JSON.stringify] writes a line feed of a string as the two characters
    of its escape, so the [replace(/\n/g, '')] of [stringify] finds
    nothing to remove. *)

Lemma filter_no_line_feed (s : jsstring) :
  no_line_feed s → filter (fun c => c ≠ 10%N) s = s.
Proof.
  induction 1 as [|c s Hc _ IH]; [done |].
  rewrite filter_cons. case_decide; [by rewrite IH | done].
Qed.

Lemma no_line_feed_app (s t : jsstring) :
  no_line_feed s → no_line_feed t → no_line_feed (s ++ t).
Proof. apply Forall_app_2. Qed.

Lemma uint_no_line_feed (d : Decimal.uint) :
  no_line_feed (lit (NilEmpty.string_of_uint d)).
Proof. induction d; cbn; constructor; done. Qed.

Lemma Number_toString_no_line_feed (n : Z) : no_line_feed (Number_toString n).
Proof.
  unfold Number_toString, NilZero.string_of_int, NilZero.string_of_uint.
  destruct (Z.to_int n) as [d|d].
  - destruct d; try apply uint_no_line_feed. by repeat constructor.
  - change (no_line_feed (45%N :: lit (match d with
                                        | Decimal.Nil => "0"%string
                                        | _ => NilEmpty.string_of_uint d
                                        end))).
    constructor; [done |].
    destruct d; try apply uint_no_line_feed. by repeat constructor.
Qed.

Lemma hex_digit_no_line_feed (d : N) : hex_digit d ≠ 10%N.
Proof. unfold hex_digit. destruct (N.ltb_spec d 10); lia. Qed.

Lemma JSON_escape_no_line_feed (c : codeunit) : no_line_feed (JSON_escape c).
Proof.
  unfold JSON_escape.
  repeat (match goal with
          | |- context [(?a =? ?b)%N] => destruct (N.eqb_spec a b)
          | |- context [(?a <? ?b)%N] => destruct (N.ltb_spec a b)
          end);
    subst; repeat constructor; try done; try apply hex_digit_no_line_feed.
Qed.

Lemma JSON_quote_no_line_feed (s : jsstring) : no_line_feed (JSON_quote s).
Proof.
  unfold JSON_quote. repeat apply no_line_feed_app; try by repeat constructor.
  induction s as [|c s IH]; cbn; [constructor |].
  apply no_line_feed_app; [apply JSON_escape_no_line_feed | apply IH].
Qed.

Lemma join_no_line_feed (parts : list jsstring) :
  Forall no_line_feed parts → no_line_feed (join (lit ",") parts).
Proof.
  induction 1 as [|p rest Hp Hrest IH]; cbn [join]; [constructor |].
  destruct rest as [|q rest]; [done |].
  repeat apply no_line_feed_app; try done. by repeat constructor.
Qed.

Lemma JSON_stringify_array (elems : list JsValue) :
  JSON_stringify (JArr elems) =
  Some (lit "[" ++ join (lit ",")
                     (map (fun e => default (lit "null") (JSON_stringify e)) elems)
        ++ lit "]").
Proof.
  reflexivity.
Qed.

Lemma JSON_stringify_object (props : list (jsstring * JsValue)) :
  JSON_stringify (JObj props) =
  Some (lit "{" ++ join (lit ",")
                     (omap (fun kv => match JSON_stringify kv.2 with
                                      | Some s => Some (JSON_quote kv.1 ++ lit ":" ++ s)
                                      | None => None
                                      end) props)
        ++ lit "}").
Proof.
  cbn [JSON_stringify]. do 4 f_equal.
  induction props as [|[k e] props IH]; [done |]. cbn [omap list_omap fst snd].
  destruct (JSON_stringify e); by rewrite IH.
Qed.

Lemma JSON_stringify_no_line_feed (v : JsValue) (json : jsstring) :
  JSON_stringify v = Some json → no_line_feed json.
Proof.
  revert v json. fix IH 1. intros [| |b|n|s|elems|props] json.
  - intros [=].
  - intros [= <-]. by repeat constructor.
  - intros [= <-]. destruct b; by repeat constructor.
  - intros [= <-]. apply Number_toString_no_line_feed.
  - intros [= <-]. apply JSON_quote_no_line_feed.
  - rewrite JSON_stringify_array. intros Heq.
    apply (inj Some) in Heq. subst json.
    apply no_line_feed_app; [by repeat constructor |].
    apply no_line_feed_app; [| by repeat constructor].
    apply join_no_line_feed.
    induction elems as [|e elems IHelems]; constructor; [| apply IHelems].
    destruct (JSON_stringify e) as [s|] eqn:He; cbn [default].
    + by apply (IH e).
    + by repeat constructor.
  - rewrite JSON_stringify_object. intros Heq.
    apply (inj Some) in Heq. subst json.
    apply no_line_feed_app; [by repeat constructor |].
    apply no_line_feed_app; [| by repeat constructor].
    apply join_no_line_feed.
    induction props as [|[k e] props IHprops]; [constructor |].
    cbn [omap list_omap fst snd].
    destruct (JSON_stringify e) as [s|] eqn:He; [| apply IHprops].
    constructor; [| apply IHprops].
    apply no_line_feed_app; [apply JSON_quote_no_line_feed |].
    apply no_line_feed_app; [by repeat constructor |].
    by apply (IH e).
Qed.

(** [stringify] is [JSON.stringify] where that gives a string. *)
Lemma stringify_JSON (value : JsValue) :
  stringify value =
  match JSON_stringify value with
  | Some json => inr json
  | None => inl TypeError
  end.
Proof.
  unfold stringify. destruct (JSON_stringify value) as [json|] eqn:Hjson; [| done].
  by rewrite filter_no_line_feed by by eapply JSON_stringify_no_line_feed.
Qed.

(** ** The natural column widths *)

Lemma stringify_inr (value : JsValue) (s : jsstring) :
  stringify value = inr s → JSON_stringify value = Some s.
Proof.
  rewrite stringify_JSON. destruct (JSON_stringify value) as [json|]; [| done].
  by intros [= <-].
Qed.

(** C7.  Before fitting, the key column is as wide as the longest key,
    each key measured by its own length in code units with no quoting,
    and at least as wide as the 7 of ["(index)"]; the value column is as
    wide as the longest JSON text of a value, quotes and escapes included,
    and at least as wide as the 5 of ["Value"]. *)
Theorem column_widths_measure (data : JsValue) (mv : ExtZ) :
  maxValueWidth data = inr mv →
  ∃ mk, maxKeyLen data = inr mk ∧
    let keyWidth := Math_max_fin mk (String_length (lit "(index)")) in
    let valueWidth := Math_max_fin mv (String_length (lit "Value")) in
    (7 ≤ keyWidth
     ∧ (∀ key, key ∈ Object_keys data → String_length key ≤ keyWidth)
     ∧ (keyWidth = 7
        ∨ ∃ key, key ∈ Object_keys data ∧ keyWidth = String_length key))
    ∧ (5 ≤ valueWidth
       ∧ (∀ value, value ∈ Object_values data →
            ∃ json, JSON_stringify value = Some json
                    ∧ String_length json ≤ valueWidth)
       ∧ (valueWidth = 5
          ∨ ∃ value json,
              value ∈ Object_values data
              ∧ JSON_stringify value = Some json
              ∧ valueWidth = String_length json)).
Proof.
  intros Hmv. destruct (maxKeyLen_ok data) as [mk Hmk].
  exists mk. split; [done |]. cbn zeta.
  rewrite index_header_length, value_header_length.
  destruct (max_from_bounds _ _ _ _ 7 Hmk) as (Hk7 & Hkall & Hkex).
  destruct (max_from_bounds _ _ _ _ 5 Hmv) as (Hv5 & Hvall & Hvex).
  cbn [Math_max_fin Math_max] in Hk7, Hv5, Hkex, Hvex.
  split; [split; [done |]; split |split; [done |]; split].
  - intros key Hin. by eapply Hkall.
  - destruct Hkex as [->|(key & Hin & [= Hkey])]; [by left |].
    right. by exists key.
  - intros value Hin.
    destruct (maxValueWidth_values data mv Hmv value Hin) as [s Hs].
    exists s. split; [by apply stringify_inr |].
    eapply Hvall; [done |]. by rewrite Hs.
  - destruct Hvex as [->|(value & Hin & Hvalue)]; [by left |].
    right. destruct (stringify value) as [e|s] eqn:Hs; [done |].
    injection Hvalue as Hvalue.
    exists value, s. by split; [| split; [apply stringify_inr |]].
Qed.

Lemma column_widths_measure_witness :
  let data := JObj [(lit "a", JStr (lit "xyzxyz")); (lit "reallyLongKey", JNum 2)] in
  maxValueWidth data = inr (Finite 8)
  ∧ ∃ mk, maxKeyLen data = inr mk ∧
    let keyWidth := Math_max_fin mk (String_length (lit "(index)")) in
    let valueWidth := Math_max_fin (Finite 8) (String_length (lit "Value")) in
    (7 ≤ keyWidth
     ∧ (∀ key, key ∈ Object_keys data → String_length key ≤ keyWidth)
     ∧ (keyWidth = 7
        ∨ ∃ key, key ∈ Object_keys data ∧ keyWidth = String_length key))
    ∧ (5 ≤ valueWidth
       ∧ (∀ value, value ∈ Object_values data →
            ∃ json, JSON_stringify value = Some json
                    ∧ String_length json ≤ valueWidth)
       ∧ (valueWidth = 5
          ∨ ∃ value json,
              value ∈ Object_values data
              ∧ JSON_stringify value = Some json
              ∧ valueWidth = String_length json)).
Proof.
  intros data. split; [reflexivity |].
  exact (column_widths_measure data (Finite 8) eq_refl).
Defined.

(** The two measures differ on the same text: a key counts as it is, a
    string value counts with its quotes. *)
Example key_and_value_measures :
  maxKeyLen (JObj [(lit "ab", JStr (lit "ab"))]) = inr (Finite 2)
  ∧ maxValueWidth (JObj [(lit "ab", JStr (lit "ab"))]) = inr (Finite 4).
Proof. split; reflexivity. Qed.

(** ** [groupCollapsed] *)

Lemma group_label_output format_inspect (l : jsstring) (st : Console) :
  l ≠ [] →
  ∃ rest, output (group format_inspect (Some l) st) = ClearLine :: rest.
Proof.
  intros Hl. unfold group. run_js.
  assert (Htruthy : truthy (JStr l) = true).
  { cbn [truthy]. by rewrite bool_decide_eq_false_2. }
  rewrite Htruthy, log_run, _log_run.
  destruct (_ <? 0); by eexists.
Qed.

(** C6, as the code has it.  [groupCollapsed] is [group] called without a
    label, whatever it is called with: it raises the group level by one
    and writes nothing.  It leaves the console in the state that
    [group(label)] leaves it in for every label.  The two calls are the
    same altogether (state, outcome and everything that reaches the sink)
    if and only if the label is absent or empty: with any other label
    [group] at least clears the line, and from group level -1 upwards it
    writes the label, where [groupCollapsed] writes no line. *)
Theorem groupCollapsed_is_group_without_label format_inspect
    (arguments : list JsValue) (label : option jsstring) (st : Console) :
  groupCollapsed format_inspect arguments st = group format_inspect None st
  ∧ groupCollapsed format_inspect arguments st =
    mkOutcome (inr ())
      (mkConsole (_formatBuffer st) (_groupLevel st + 1) (_counts st)
         (_outWidth st)) []
  ∧ final (groupCollapsed format_inspect arguments st)
    = final (group format_inspect label st)
  ∧ (groupCollapsed format_inspect arguments st = group format_inspect label st
     ↔ label = None ∨ label = Some [])
  ∧ (∀ l, label = Some l → l ≠ [] → -1 ≤ _groupLevel st →
       lines (output (group format_inspect label st))
       = [indentation (_groupLevel st + 1) ++ _formatBuffer st TLog l]
       ∧ lines (output (groupCollapsed format_inspect arguments st)) = []).
Proof.
  split; [reflexivity |]. split; [reflexivity |]. split; [| split].
  - unfold groupCollapsed. by rewrite !group_final.
  - split; [| by intros [-> | ->]].
    intros Hsame. destruct label as [[|c l]|]; [by right | | by left].
    destruct (group_label_output format_inspect (c :: l) st) as [rest Hout];
      [done |].
    apply (f_equal output) in Hsame. rewrite Hout in Hsame. discriminate Hsame.
  - intros l -> Hl Hlevel. split; [| reflexivity].
    unfold group. run_js.
    assert (Htruthy : truthy (JStr l) = true).
    { cbn [truthy]. by rewrite bool_decide_eq_false_2. }
    rewrite Htruthy, log_run, _log_ok by (cbn; lia). reflexivity.
Qed.

(** The claim of C6 as it is worded fails: on a new console
    [group("g")] writes the line ["> g"] and [groupCollapsed("g")] writes
    nothing. *)
Lemma groupCollapsed_drops_label :
  let st := new_CustomConsole (mkWritable false 0) None in
  lines (output (group (fun _ => []) (Some (lit "g")) st)) = [lit "> g"]
  ∧ lines (output (groupCollapsed (fun _ => []) [JStr (lit "g")] st)) = []
  ∧ groupCollapsed (fun _ => []) [JStr (lit "g")] st
    ≠ group (fun _ => []) (Some (lit "g")) st.
Proof.
  cbn zeta. split; [reflexivity |]. split; [reflexivity |].
  intros H. apply (f_equal output) in H. vm_compute in H. discriminate H.
Qed.

(** ** Where the earlier revision differs *)

(** Its [assert] logs when the assertion holds and is silent when it fails. *)
Lemma rev1_assert_logs_when_truthy :
  let st := Rev1.new_CustomConsole (mkWritable true 80) None in
  lines (output (Rev1.assert (fun _ => []) (JBool true) [JStr (lit "x")] st))
  = [lit "x"]
  ∧ lines (output (Rev1.assert (fun _ => []) (JBool false) [JStr (lit "x")] st))
    = [].
Proof. split; reflexivity. Qed.

(** Its indentation marker is [" > "], three code units to a level. *)
Lemma rev1_indentation_marker :
  let st := Rev1.new_CustomConsole (mkWritable true 80) None in
  lines (output ((Rev1.group (fun _ => []) None ;;
                  Rev1.log (fun _ => []) [JStr (lit "x")]) st))
  = [lit " > x"].
Proof. reflexivity. Qed.

(** Its guard lets [null] through, and [Object.keys(null)] throws. *)
Lemma rev1_table_null_throws :
  let st := Rev1.new_CustomConsole (mkWritable true 80) None in
  Rev1.table (fun _ => []) JNull None st = mkOutcome (inl TypeError) st [].
Proof. reflexivity. Qed.

(** It measures a key with its quotes, draws one unbroken separator row
    and closes with three code units per column of the bottom border. *)
Lemma rev1_table_layout :
  let st := Rev1.new_CustomConsole (mkWritable true 80) None in
  let written :=
    lines (output (Rev1.table (fun _ => [])
                     (JObj [(lit "reallyLongKey", JNum 2)]) None st)) in
  take 4 written =
    [lit "___________________________";
     lit "| (index)         | Value |";
     lit "---------------------------";
     lit "| reallyLongKey   | 2     |"]
  ∧ String_length <$> written = [27; 27; 27; 27; 81].
Proof. vm_compute. done. Qed.

(** ** The cases of the test-suite

    The expectations of [__tests__/Console-test.js], read off the lines
    that reach the sink of a new console. *)

Example test_count_labels :
  lines (written (fun _ => [])
           [CallCount None; CallCount (Some (lit "label1"));
            CallCount (Some (lit "label1")); CallCount None;
            CallCount (Some (lit "label1")); CallCount (Some (lit "label2"));
            CallCount (Some (lit "label2")); CallCount (Some (lit "label1"))]
           (new_CustomConsole (mkWritable false 0) None))
  = [lit "<no label>: 1"; lit "label1: 1"; lit "label1: 2"; lit "<no label>: 2";
     lit "label1: 3"; lit "label2: 1"; lit "label2: 2"; lit "label1: 4"].
Proof. vm_compute. reflexivity. Qed.

Example test_group_labels :
  lines (written (fun _ => [])
           [CallLog [JStr (lit "This is the outer level")];
            CallGroup (Some (lit "Group 1"));
            CallLog [JStr (lit "Level 2")];
            CallGroup (Some (lit "Group 2"));
            CallLog [JStr (lit "Level 3")];
            CallWarn [JStr (lit "More of level 3")];
            CallGroupEnd;
            CallLog [JStr (lit "Back to level 2")];
            CallGroupCollapsed [];
            CallLog [JStr (lit "Inside collapsed")];
            CallGroupEnd;
            CallGroupEnd;
            CallLog [JStr (lit "Back to the outer level")]]
           (new_CustomConsole (mkWritable false 0) None))
  = [lit "This is the outer level"; lit "> Group 1"; lit "> Level 2";
     lit "> > Group 2"; lit "> > Level 3"; lit "> > More of level 3";
     lit "> Back to level 2"; lit "> > Inside collapsed";
     lit "Back to the outer level"].
Proof. vm_compute. reflexivity. Qed.

Example test_table_array :
  lines (output (table (fun _ => [])
           (JArr [JObj [(lit "a", JNum 1); (lit "b", JNum 2); (lit "c", JNum 3)];
                  JNum 4; JNum 3; JNum 2; JNum 1]) None
           (new_CustomConsole (mkWritable false 0) None)))
  = [repeated 95%N 33;
     lit "| (index) | Value               |";
     lit "|---------|---------------------|";
     lit "| 0       | {" ++ JSON_quote (lit "a") ++ lit ":1,"
       ++ JSON_quote (lit "b") ++ lit ":2," ++ JSON_quote (lit "c")
       ++ lit ":3} |";
     lit "| 1       | 4                   |";
     lit "| 2       | 3                   |";
     lit "| 3       | 2                   |";
     lit "| 4       | 1                   |";
     repeated 8254%N 33].
Proof. vm_compute. reflexivity. Qed.

Example test_table_object :
  lines (output (table (fun _ => [])
           (JObj [(lit "a", JNum 1);
                  (lit "c", JArr [JNum 3; JNum 4; JNum 3; JNum 2; JNum 1]);
                  (lit "reallyLongKey", JNum 2)]) None
           (new_CustomConsole (mkWritable false 0) None)))
  = [repeated 95%N 31;
     lit "| (index)       | Value       |";
     lit "|---------------|-------------|";
     lit "| a             | 1           |";
     lit "| c             | [3,4,3,2,1] |";
     lit "| reallyLongKey | 2           |";
     repeated 8254%N 31].
Proof. vm_compute. reflexivity. Qed.

(** * Further properties of the helpers of [table] *)

(** X1.  For a width that is not negative [pad] returns a string of
    exactly that width: the string followed by spaces when it fits, its
    first [width] code units when it is longer. *)
Theorem pad_exact_width (str : jsstring) (width : Z) :
  0 ≤ width →
  ∃ r, pad str width = inr r
       ∧ String_length r = width
       ∧ (String_length str ≤ width →
          r = str ++ replicate (Z.to_nat (width - String_length str)) 32%N)
       ∧ (width < String_length str → r = take (Z.to_nat width) str).
Proof.
  intros Hwidth. exists (padded str width).
  split; [apply pad_ok |]. split; [by apply padded_length |].
  unfold padded.
  destruct (Z.gtb_spec (String_length str) width); split; intros; try done; lia.
Qed.

Lemma pad_exact_width_witness :
  0 ≤ 4
  ∧ ∃ r, pad (lit "reallyLongKey") 4 = inr r
         ∧ String_length r = 4
         ∧ (String_length (lit "reallyLongKey") ≤ 4 →
            r = lit "reallyLongKey"
                ++ replicate (Z.to_nat (4 - String_length (lit "reallyLongKey")))
                     32%N)
         ∧ (4 < String_length (lit "reallyLongKey") →
            r = take (Z.to_nat 4) (lit "reallyLongKey")).
Proof. split; [lia |]. apply (pad_exact_width (lit "reallyLongKey") 4). lia. Defined.

Lemma padded_negative (str : jsstring) (width : Z) :
  width < 0 → padded str width = [].
Proof.
  intros Hneg. unfold padded, String_length.
  destruct (Z.gtb_spec (Z.of_nat (length str)) width); [| lia].
  by replace (Z.to_nat width) with O by lia.
Qed.

(** X2.  [pad] never throws, and padding its own result to the same width
    again changes nothing. *)
Theorem pad_idempotent (str : jsstring) (width : Z) :
  ∃ r, pad str width = inr r ∧ pad r width = inr r.
Proof.
  exists (padded str width). split; [apply pad_ok |].
  rewrite pad_ok. f_equal.
  destruct (Z.lt_ge_cases width 0) as [Hneg|Hpos].
  - by rewrite !padded_negative.
  - pose proof (padded_length str width Hpos) as Hlen.
    unfold padded at 1. rewrite Hlen.
    destruct (Z.gtb_spec width width); [lia |].
    rewrite Z.sub_diag. cbn. by rewrite app_nil_r.
Qed.

(** X3.  With a negative width [pad] gives the empty string, whatever the
    string: a column that the fitting loop has taken below zero shows
    nothing. *)
Theorem pad_negative_width (str : jsstring) (width : Z) :
  width < 0 → pad str width = inr [].
Proof. intros Hneg. by rewrite pad_ok, padded_negative. Qed.

Lemma pad_negative_width_witness :
  -3 < 0 ∧ pad (lit "(index)") (-3) = inr [].
Proof. split; [lia |]. apply (pad_negative_width (lit "(index)") (-3)). lia. Defined.

Lemma ExtZ_le_refl (a : ExtZ) : ExtZ_le a a.
Proof. destruct a; cbn; lia. Qed.

Lemma ExtZ_le_trans (a b c : ExtZ) : ExtZ_le a b → ExtZ_le b c → ExtZ_le a c.
Proof. destruct a, b, c; cbn; try done; lia. Qed.

Lemma Math_max_upper (a b : ExtZ) :
  ExtZ_le a (Math_max a b) ∧ ExtZ_le b (Math_max a b)
  ∧ (Math_max a b = a ∨ Math_max a b = b).
Proof.
  destruct a as [|x], b as [|y]; cbn; repeat split; try lia; auto.
  destruct (Z.max_spec x y) as [[_ ->]|[_ ->]]; auto.
Qed.

Lemma max_from_spec {A} (arr : list A) (evaluator : A → JsError + Z) (m r : ExtZ) :
  max_from m arr evaluator = inr r →
  ExtZ_le m r
  ∧ (∀ el z, el ∈ arr → evaluator el = inr z → ExtZ_le (Finite z) r)
  ∧ (r = m ∨ ∃ el z, el ∈ arr ∧ evaluator el = inr z ∧ r = Finite z).
Proof.
  revert m. induction arr as [|el rest IH]; intros m Hmax; cbn [max_from] in Hmax.
  - injection Hmax as <-. split; [apply ExtZ_le_refl |]. split; [| by left].
    intros el z Hin. inversion Hin.
  - destruct (evaluator el) as [e|z] eqn:Hel; [done |].
    destruct (IH _ Hmax) as (Hle & Hall & Hex).
    destruct (Math_max_upper m (Finite z)) as (Hm & Hz & Hwhich).
    split; [by eapply ExtZ_le_trans |]. split.
    + intros el' z' Hin Hel'. apply elem_of_cons in Hin as [->|Hin].
      * rewrite Hel in Hel'. injection Hel' as <-. by eapply ExtZ_le_trans.
      * by eapply Hall.
    + destruct Hex as [->|(el' & z' & Hin & Hel' & ->)].
      * destruct Hwhich as [->| ->]; [by left |].
        right. exists el, z. split; [by left | done].
      * right. exists el', z'. split; [by right | done].
Qed.

(** X4.  When [max] returns, its result is [-Infinity] for the empty
    array only; for any other array it is the evaluator's value on one of
    the elements, and no element has a greater one. *)
Theorem max_is_maximum {A} (arr : list A) (evaluator : A → JsError + Z) (r : ExtZ) :
  max arr evaluator = inr r →
  (arr = [] → r = NegInfinity)
  ∧ (arr ≠ [] →
     ∃ el m, el ∈ arr ∧ evaluator el = inr m ∧ r = Finite m)
  ∧ (∀ el z, el ∈ arr → evaluator el = inr z → ∃ m, r = Finite m ∧ z ≤ m).
Proof.
  intros Hmax. destruct (max_from_spec _ _ _ _ Hmax) as (_ & Hall & Hex).
  assert (Hbound : ∀ el z, el ∈ arr → evaluator el = inr z →
                   ∃ m, r = Finite m ∧ z ≤ m).
  { intros el z Hin Hel. specialize (Hall el z Hin Hel).
    destruct r as [|m]; [done |]. by exists m. }
  split; [| split; [| done]].
  - intros ->. by injection Hmax as <-.
  - intros Hne. destruct Hex as [->|(el & z & Hin & Hel & ->)].
    + destruct arr as [|el rest]; [done |].
      destruct (max_from_inr _ _ _ _ Hmax el) as [z Hz]; [by left |].
      destruct (Hbound el z) as (m & [=] & _); [by left | done].
    + by exists el, z.
Qed.

Lemma max_is_maximum_witness :
  max [lit "a"; lit "reallyLongKey"; lit "c"] (fun el => inr (String_length el))
  = inr (Finite 13)
  ∧ ∃ el m, el ∈ [lit "a"; lit "reallyLongKey"; lit "c"]
            ∧ (inr (String_length el) : JsError + Z) = inr m
            ∧ Finite 13 = Finite m.
Proof.
  split; [reflexivity |].
  by apply (max_is_maximum [lit "a"; lit "reallyLongKey"; lit "c"]
              (fun el => inr (String_length el)) (Finite 13) eq_refl).
Defined.

(** X5.  [max] throws exactly when the evaluator throws on some element,
    and what it throws is the error of the first such element. *)
Theorem max_first_error {A} (arr : list A) (evaluator : A → JsError + Z)
    (e : JsError) :
  max arr evaluator = inl e ↔
  ∃ pre el post,
    arr = pre ++ el :: post
    ∧ evaluator el = inl e
    ∧ ∀ x, x ∈ pre → ∃ z, evaluator x = inr z.
Proof.
  unfold max. generalize NegInfinity as m.
  induction arr as [|el rest IH]; intros m; cbn [max_from].
  - split; [done |]. intros (pre & el & post & Harr & _). by destruct pre.
  - destruct (evaluator el) as [e'|z] eqn:Hel.
    + split.
      * intros [= ->]. exists [], el, rest. split; [done |]. split; [done |].
        intros x Hin. inversion Hin.
      * intros (pre & el' & post & Harr & Hel' & Hpre).
        destruct pre as [|p pre]; cbn in Harr; injection Harr as <- ->.
        -- congruence.
        -- destruct (Hpre el) as [z Hz]; [by left | congruence].
    + rewrite IH. split.
      * intros (pre & el' & post & -> & Hel' & Hpre).
        exists (el :: pre), el', post. split; [done |]. split; [done |].
        intros x Hin. apply elem_of_cons in Hin as [->|Hin]; [by eexists | auto].
      * intros (pre & el' & post & Harr & Hel' & Hpre).
        destruct pre as [|p pre]; cbn in Harr; injection Harr as <- ->.
        -- congruence.
        -- exists pre, el', post. split; [done |]. split; [done |].
           intros x Hin. apply Hpre. by right.
Qed.

(** X7.  The fitting loop only ever narrows a column, it takes the total
    width down to the output width and no further, and it cuts a column
    only down to the width of the other one: a key column that was cut is
    at most one narrower than the value column, and a value column that
    was cut is not narrower than the key column. *)
Theorem fit_cuts_the_wider_column (outWidth keyWidth valueWidth : Z) :
  let w := fitWidths outWidth keyWidth valueWidth in
  w.1 ≤ keyWidth ∧ w.2 ≤ valueWidth
  ∧ w.1 + w.2 + 7 = Z.min (keyWidth + valueWidth + 7) outWidth
  ∧ (w.1 = keyWidth ∨ w.2 - 1 ≤ w.1)
  ∧ (w.2 = valueWidth ∨ w.1 ≤ w.2).
Proof.
  cbn zeta.
  destruct (fitWidths_invariant
    (fun k v => k ≤ keyWidth ∧ v ≤ valueWidth
                ∧ Z.min (keyWidth + valueWidth + 7) outWidth ≤ k + v + 7
                ∧ (k = keyWidth ∨ v - 1 ≤ k)
                ∧ (v = valueWidth ∨ k ≤ v))
    outWidth) with (keyWidth := keyWidth) (valueWidth := valueWidth)
    as [(Hk & Hv & Hmin & Hkey & Hvalue) Hfit]; [lia | lia | lia |].
  repeat split; try done. lia.
Qed.

Example fit_cuts_the_wider_column_cases :
  fitWidths 40 7 60 = (7, 26) ∧ fitWidths 40 60 5 = (28, 5)
  ∧ fitWidths 20 30 30 = (6, 7).
Proof. repeat split. Qed.

(** * Further properties of [table] *)

Lemma bind_throws {A B} (m : Js A) (f : A → Js B) st e st1 out1 :
  m st = mkOutcome (inl e) st1 out1 →
  (m ≫= f) st = mkOutcome (inl e) st1 out1.
Proof. intros Hm. by rewrite bind_run, Hm. Qed.

Lemma max_from_TypeError {A} (arr : list A) (evaluator : A → JsError + Z) (m : ExtZ) :
  (∀ el e, evaluator el = inl e → e = TypeError) →
  (∃ el e, el ∈ arr ∧ evaluator el = inl e) →
  max_from m arr evaluator = inl TypeError.
Proof.
  intros Htype. revert m.
  induction arr as [|el rest IH]; intros m (bad & e & Hin & Hbad).
  - inversion Hin.
  - cbn [max_from]. destruct (evaluator el) as [e'|z] eqn:Hel.
    + by rewrite (Htype el e').
    + apply IH. exists bad, e. split; [| done].
      apply elem_of_cons in Hin as [->|Hin]; [congruence | done].
Qed.

Lemma maxValueWidth_undefined (data : JsValue) :
  JUndefined ∈ Object_values data → maxValueWidth data = inl TypeError.
Proof.
  intros Hin. apply max_from_TypeError.
  - intros el e. unfold stringify. by destruct (JSON_stringify el); intros [= <-].
  - by exists JUndefined, TypeError.
Qed.

(** X8.  When a value of the collection is [undefined], [table] throws a
    [TypeError] before it writes anything, not even the top border, and
    the console is as it was: the widths are computed over all the values
    before the first line is drawn. *)
Theorem table_undefined_value_writes_nothing format_inspect (data : JsValue)
    (columns : option (list JsValue)) (st : Console) :
  is_collection data = true →
  JUndefined ∈ Object_values data →
  table format_inspect data columns st = mkOutcome (inl TypeError) st [].
Proof.
  intros Hdata Hin. unfold table. rewrite table_guard, Hdata. cbn [negb].
  destruct (maxKeyLen_ok data) as [mk Hmk].
  rewrite bind_run. cbn [liftE completion final output]. rewrite Hmk.
  cbn [app].
  rewrite (bind_throws _ _ st TypeError st []); [done |].
  by rewrite (maxValueWidth_undefined data Hin).
Qed.

Lemma table_undefined_value_writes_nothing_witness :
  let st := new_CustomConsole (mkWritable false 0) None in
  let data := JObj [(lit "a", JNum 1); (lit "b", JUndefined)] in
  is_collection data = true
  ∧ JUndefined ∈ Object_values data
  ∧ table (fun _ => []) data None st = mkOutcome (inl TypeError) st [].
Proof.
  intros st data.
  assert (Hin : JUndefined ∈ Object_values data) by (right; left).
  split; [reflexivity |]. split; [exact Hin |].
  exact (table_undefined_value_writes_nothing (fun _ => []) data None st
           eq_refl Hin).
Defined.

Lemma rendered_length (data : JsValue) (keyWidth valueWidth : Z) :
  length (rendered data keyWidth valueWidth) = (4 + length (Object_keys data))%nat.
Proof.
  unfold rendered. rewrite !length_app, length_map. cbn [length]. lia.
Qed.

Lemma rendered_lookup_row (data : JsValue) (keyWidth valueWidth : Z)
    (i : nat) (key : jsstring) :
  Object_keys data !! i = Some key →
  rendered data keyWidth valueWidth !! (3 + i)%nat
  = Some (rendered_row data keyWidth valueWidth key).
Proof.
  intros Hkey. unfold rendered.
  rewrite lookup_app_r by (cbn [length]; lia).
  replace (3 + i - length _)%nat with i by (cbn [length]; lia).
  rewrite lookup_app_l; [by rewrite list_lookup_fmap, Hkey |].
  rewrite length_map. by eapply lookup_lt_Some.
Qed.

Lemma table_widths_ok (data : JsValue) (st : Console) (mk mv : ExtZ) :
  3 ≤ _outWidth st →
  let w := fitWidths (_outWidth st)
             (Math_max_fin mk (String_length (lit "(index)")))
             (Math_max_fin mv (String_length (lit "Value"))) in
  -2 ≤ w.1 ∧ -2 ≤ w.2.
Proof.
  intros Hwide.
  pose proof (Math_max_fin_ge mk (String_length (lit "(index)"))) as Hk.
  pose proof (Math_max_fin_ge mv (String_length (lit "Value"))) as Hv.
  pose proof index_header_length. pose proof value_header_length.
  apply fitWidths_lower_bound; lia.
Qed.

(** X9.  On a collection whose values all have a JSON text, at a group
    level that is not negative and an output width of at least 3, [table]
    returns and has written the top border, the header, the separator, one
    row for each key of the collection and the bottom border: four lines
    and as many again as there are keys, also when the table had to be cut
    to fit. *)
Theorem table_line_count format_inspect (data : JsValue)
    (columns : option (list JsValue)) (st : Console) :
  is_collection data = true →
  0 ≤ _groupLevel st →
  3 ≤ _outWidth st →
  (∀ value, value ∈ Object_values data → JSON_stringify value ≠ None) →
  completion (table format_inspect data columns st) = inr ()
  ∧ length (lines (output (table format_inspect data columns st)))
    = (4 + length (Object_keys data))%nat.
Proof.
  intros Hdata Hlevel Hwide Hvalues.
  destruct (maxKeyLen_ok data) as [mk Hmk].
  destruct (maxValueWidth_ok data Hvalues) as [mv Hmv].
  destruct (table_widths_ok data st mk mv Hwide) as [H1 H2].
  rewrite (table_run format_inspect data columns st mk mv) by done.
  cbn [completion output]. split; [done |].
  by rewrite lines_logged, length_map, rendered_length.
Qed.

Lemma table_line_count_witness :
  let st := new_CustomConsole (mkWritable true 12) None in
  let data := JArr [JNum 4; JStr (lit "a long string"); JNull] in
  is_collection data = true
  ∧ 0 ≤ _groupLevel st
  ∧ 3 ≤ _outWidth st
  ∧ (∀ value, value ∈ Object_values data → JSON_stringify value ≠ None)
  ∧ completion (table (fun _ => []) data None st) = inr ()
  ∧ length (lines (output (table (fun _ => []) data None st))) = 7%nat.
Proof.
  intros st data.
  assert (Hlevel : 0 ≤ _groupLevel st) by (cbn; lia).
  assert (Hwide : 3 ≤ _outWidth st) by (cbn; lia).
  assert (Hvalues : ∀ value, value ∈ Object_values data →
                    JSON_stringify value ≠ None).
  { intros value Hin.
    apply elem_of_cons in Hin as [->|Hin]; [discriminate |].
    apply elem_of_cons in Hin as [->|Hin]; [discriminate |].
    apply elem_of_cons in Hin as [->|Hin]; [discriminate |].
    inversion Hin. }
  split; [reflexivity |]. split; [exact Hlevel |]. split; [exact Hwide |].
  split; [exact Hvalues |].
  exact (table_line_count (fun _ => []) data None st eq_refl Hlevel Hwide Hvalues).
Defined.

Lemma padded_fits (str : jsstring) (width : Z) :
  String_length str ≤ width →
  padded str width = str ++ replicate (Z.to_nat (width - String_length str)) 32%N.
Proof.
  intros Hfits. unfold padded.
  by destruct (Z.gtb_spec (String_length str) width); [lia |].
Qed.

Lemma key_fits_natural_width (data : JsValue) (mk : ExtZ) (key : jsstring) :
  maxKeyLen data = inr mk → key ∈ Object_keys data →
  String_length key ≤ Math_max_fin mk (String_length (lit "(index)")).
Proof.
  intros Hmk Hin.
  destruct (max_from_bounds _ _ _ _ (String_length (lit "(index)")) Hmk)
    as (_ & Hall & _).
  by eapply Hall.
Qed.

Lemma value_fits_natural_width (data : JsValue) (mv : ExtZ) (value : JsValue) :
  maxValueWidth data = inr mv → value ∈ Object_values data →
  ∃ json, stringify value = inr json
          ∧ JSON_stringify value = Some json
          ∧ String_length json ≤ Math_max_fin mv (String_length (lit "Value")).
Proof.
  intros Hmv Hin.
  destruct (maxValueWidth_values data mv Hmv value Hin) as [json Hjson].
  exists json. split; [done |]. split; [by apply stringify_inr |].
  destruct (max_from_bounds _ _ _ _ (String_length (lit "Value")) Hmv)
    as (_ & Hall & _).
  eapply Hall; [done |]. by rewrite Hjson.
Qed.

(** X10.  When the table fits the output at its natural widths, nothing is
    cut: the row of the [i]-th key is the fourth line after [i] others and
    shows the whole key and the whole JSON text of the key's value, each
    followed by the spaces that fill its column. *)
Theorem table_that_fits_shows_everything format_inspect (data : JsValue)
    (columns : option (list JsValue)) (st : Console) (mk mv : ExtZ) :
  is_collection data = true →
  maxKeyLen data = inr mk →
  maxValueWidth data = inr mv →
  0 ≤ _groupLevel st →
  let keyWidth := Math_max_fin mk (String_length (lit "(index)")) in
  let valueWidth := Math_max_fin mv (String_length (lit "Value")) in
  keyWidth + valueWidth + 7 ≤ _outWidth st →
  ∀ (i : nat) (key : jsstring),
    Object_keys data !! i = Some key →
    ∃ json,
      JSON_stringify (get_property data key) = Some json
      ∧ lines (output (table format_inspect data columns st)) !! (3 + i)%nat
        = Some (indentation (_groupLevel st)
                ++ _formatBuffer st TLog
                     (lit "| " ++ key
                      ++ replicate (Z.to_nat (keyWidth - String_length key)) 32%N
                      ++ lit " | " ++ json
                      ++ replicate (Z.to_nat (valueWidth - String_length json)) 32%N
                      ++ lit " |")).
Proof.
  intros Hdata Hmk Hmv Hlevel keyWidth valueWidth Hfits i key Hkey.
  assert (Hin : key ∈ Object_keys data) by by eapply list_elem_of_lookup_2.
  destruct (value_fits_natural_width data mv (get_property data key) Hmv)
    as (json & Hjson & HJSON & Hlen); [by apply get_property_in_values |].
  pose proof (key_fits_natural_width data mk key Hmk Hin) as Hkeylen.
  fold keyWidth in Hkeylen. fold valueWidth in Hlen.
  pose proof (Math_max_fin_ge mk (String_length (lit "(index)"))) as Hk.
  pose proof (Math_max_fin_ge mv (String_length (lit "Value"))) as Hv.
  fold keyWidth in Hk. fold valueWidth in Hv.
  pose proof index_header_length. pose proof value_header_length.
  pose proof (table_run format_inspect data columns st mk mv
                Hdata Hmk Hmv Hlevel) as Hrun.
  cbn zeta in Hrun. fold keyWidth valueWidth in Hrun.
  rewrite fitWidths_fits_already in Hrun by done.
  rewrite Hrun by (cbn [fst snd]; lia).
  exists json. split; [done |]. cbn [output fst snd].
  rewrite lines_logged, list_lookup_fmap.
  rewrite (rendered_lookup_row data keyWidth valueWidth i key Hkey).
  cbn [fmap option_fmap option_map]. do 3 f_equal.
  unfold rendered_row, cell_text. rewrite Hjson.
  rewrite !padded_fits by done. by rewrite <- !app_assoc.
Qed.

Lemma table_that_fits_shows_everything_witness :
  let st := new_CustomConsole (mkWritable false 0) None in
  let data := JObj [(lit "a", JNum 1); (lit "reallyLongKey", JStr (lit "two"))] in
  is_collection data = true
  ∧ maxKeyLen data = inr (Finite 13)
  ∧ maxValueWidth data = inr (Finite 5)
  ∧ 0 ≤ _groupLevel st
  ∧ 13 + 5 + 7 ≤ _outWidth st
  ∧ lines (output (table (fun _ => []) data None st)) !! 4%nat
    = Some (lit "| reallyLongKey | " ++ JSON_quote (lit "two") ++ lit " |").
Proof.
  intros st data.
  assert (Hlevel : 0 ≤ _groupLevel st) by (cbn; lia).
  assert (Hfits : 13 + 5 + 7 ≤ _outWidth st) by (cbn; lia).
  split; [reflexivity |]. split; [reflexivity |]. split; [reflexivity |].
  split; [exact Hlevel |]. split; [exact Hfits |].
  destruct (table_that_fits_shows_everything (fun _ => []) data None st
              (Finite 13) (Finite 5) eq_refl eq_refl eq_refl Hlevel Hfits
              1%nat (lit "reallyLongKey") eq_refl) as (json & Hjson & Hline).
  injection Hjson as <-. exact Hline.
Defined.

(** X11.  When the table is too wide for an output of at least 7 columns,
    it is cut to the output width exactly: every line that [table] writes
    carries a message of [outWidth] code units. *)
Theorem table_cut_to_output_width format_inspect (data : JsValue)
    (columns : option (list JsValue)) (st : Console) (mk mv : ExtZ) :
  maxKeyLen data = inr mk →
  maxValueWidth data = inr mv →
  7 ≤ _outWidth st →
  _outWidth st < Math_max_fin mk (String_length (lit "(index)"))
                 + Math_max_fin mv (String_length (lit "Value")) + 7 →
  ∀ line, line ∈ lines (output (table format_inspect data columns st)) →
  ∃ message,
    line = indentation (_groupLevel st) ++ _formatBuffer st TLog message
    ∧ String_length message = _outWidth st.
Proof.
  intros Hmk Hmv Hwide Hcut line Hin.
  destruct (is_collection data) eqn:Hdata.
  2:{ rewrite table_skips in Hin by done. inversion Hin. }
  destruct (Z.lt_ge_cases (_groupLevel st) 0) as [Hneg|Hlevel].
  { rewrite mute_table in Hin by done. inversion Hin. }
  set (keyWidth := Math_max_fin mk (String_length (lit "(index)"))) in *.
  set (valueWidth := Math_max_fin mv (String_length (lit "Value"))) in *.
  pose proof (Math_max_fin_ge mk (String_length (lit "(index)"))) as Hk.
  pose proof (Math_max_fin_ge mv (String_length (lit "Value"))) as Hv.
  fold keyWidth in Hk. fold valueWidth in Hv.
  pose proof index_header_length. pose proof value_header_length.
  destruct (fitWidths_lower_bound 0 (_outWidth st) keyWidth valueWidth)
    as [H1 H2]; [lia | lia | lia |].
  destruct (fitWidths_total (_outWidth st) keyWidth valueWidth) as (Htotal & _).
  pose proof (table_run format_inspect data columns st mk mv
                Hdata Hmk Hmv Hlevel) as Hrun.
  cbn zeta in Hrun. fold keyWidth valueWidth in Hrun.
  rewrite Hrun in Hin by lia. cbn [output] in Hin.
  rewrite lines_logged in Hin.
  apply list_elem_of_fmap in Hin as (message & -> & Hin).
  exists message. split; [done |].
  rewrite (rendered_lengths data _ _ H1 H2 message Hin). lia.
Qed.

Lemma table_cut_to_output_width_witness :
  let st := new_CustomConsole (mkWritable true 16) None in
  let data := JArr [JStr (lit "a rather long string")] in
  maxKeyLen data = inr (Finite 1)
  ∧ maxValueWidth data = inr (Finite 22)
  ∧ 7 ≤ _outWidth st
  ∧ _outWidth st < 7 + 22 + 7
  ∧ ∀ line, line ∈ lines (output (table (fun _ => []) data None st)) →
    ∃ message,
      line = indentation (_groupLevel st) ++ _formatBuffer st TLog message
      ∧ String_length message = _outWidth st.
Proof.
  intros st data.
  assert (Hwide : 7 ≤ _outWidth st) by (cbn; lia).
  assert (Hcut : _outWidth st < 7 + 22 + 7) by (cbn; lia).
  split; [reflexivity |]. split; [reflexivity |].
  split; [exact Hwide |]. split; [exact Hcut |].
  exact (table_cut_to_output_width (fun _ => []) data None st
           (Finite 1) (Finite 22) eq_refl eq_refl Hwide Hcut).
Defined.

Lemma table_throws_early format_inspect (data : JsValue)
    (columns : option (list JsValue)) (st : Console) (e : JsError) :
  is_collection data = true →
  maxValueWidth data = inl e →
  table format_inspect data columns st = mkOutcome (inl e) st [].
Proof.
  intros Hdata Hmv. unfold table. rewrite table_guard, Hdata. cbn [negb].
  destruct (maxKeyLen_ok data) as [mk Hmk].
  rewrite bind_run. cbn [liftE completion final output]. rewrite Hmk.
  cbn [app].
  rewrite (bind_throws _ _ st e st []); [done |]. by rewrite Hmv.
Qed.

Lemma padded_no_line_feed (str : jsstring) (width : Z) :
  no_line_feed str → no_line_feed (padded str width).
Proof.
  intros Hstr. unfold padded.
  destruct (String_length str >? width).
  - by apply Forall_take.
  - apply no_line_feed_app; [done |]. by apply Forall_replicate.
Qed.

Lemma cell_text_no_line_feed (value : JsValue) : no_line_feed (cell_text value).
Proof.
  unfold cell_text, stringify.
  destruct (JSON_stringify value) as [json|]; [| constructor].
  apply Forall_forall. intros c Hin. by apply list_elem_of_filter in Hin as [Hc _].
Qed.

Lemma rendered_no_line_feed (data : JsValue) (keyWidth valueWidth : Z) :
  (∀ key, key ∈ Object_keys data → no_line_feed key) →
  ∀ message, message ∈ rendered data keyWidth valueWidth → no_line_feed message.
Proof.
  intros Hkeys message Hin. unfold rendered in Hin.
  rewrite !elem_of_app, !elem_of_cons, list_elem_of_fmap in Hin.
  assert (Hlit : ∀ s, no_line_feed (lit s) → no_line_feed (lit s)) by done.
  destruct Hin as [[->|[->|[->|Hnil]]]|[(key & -> & Hkey)|[->|Hnil]]];
    try (by inversion Hnil); unfold rendered_row, repeated;
    repeat apply no_line_feed_app;
    try apply padded_no_line_feed;
    try apply cell_text_no_line_feed;
    try (by apply Forall_replicate);
    try (by repeat constructor).
  by apply Hkeys.
Qed.

(** X12.  The values of a collection never break a row of the table: in
    an output of at least 3 columns, when no key of the collection holds a
    line feed, no message that [table] hands to [log] holds one.  (The keys
    are drawn as they are, the values as JSON text.) *)
Theorem table_rows_are_single_lines format_inspect (data : JsValue)
    (columns : option (list JsValue)) (st : Console) :
  3 ≤ _outWidth st →
  (∀ key, key ∈ Object_keys data → no_line_feed key) →
  ∀ line, line ∈ lines (output (table format_inspect data columns st)) →
  ∃ message,
    line = indentation (_groupLevel st) ++ _formatBuffer st TLog message
    ∧ no_line_feed message.
Proof.
  intros Hwide Hkeys line Hin.
  destruct (is_collection data) eqn:Hdata.
  2:{ rewrite table_skips in Hin by done. inversion Hin. }
  destruct (Z.lt_ge_cases (_groupLevel st) 0) as [Hneg|Hlevel].
  { rewrite mute_table in Hin by done. inversion Hin. }
  destruct (maxKeyLen_ok data) as [mk Hmk].
  destruct (maxValueWidth data) as [e|mv] eqn:Hmv.
  { rewrite (table_throws_early _ _ _ _ e) in Hin by done. inversion Hin. }
  destruct (table_widths_ok data st mk mv Hwide) as [H1 H2].
  rewrite (table_run format_inspect data columns st mk mv) in Hin by done.
  cbn [output] in Hin. rewrite lines_logged in Hin.
  apply list_elem_of_fmap in Hin as (message & -> & Hin).
  exists message. split; [done |]. by eapply rendered_no_line_feed.
Qed.

Lemma table_rows_are_single_lines_witness :
  let st := new_CustomConsole (mkWritable false 0) None in
  let data := JObj [(lit "a", JStr [108%N; 10%N; 109%N])] in
  3 ≤ _outWidth st
  ∧ (∀ key, key ∈ Object_keys data → no_line_feed key)
  ∧ ∀ line, line ∈ lines (output (table (fun _ => []) data None st)) →
    ∃ message,
      line = indentation (_groupLevel st) ++ _formatBuffer st TLog message
      ∧ no_line_feed message.
Proof.
  intros st data.
  assert (Hwide : 3 ≤ _outWidth st) by (cbn; lia).
  assert (Hkeys : ∀ key, key ∈ Object_keys data → no_line_feed key).
  { intros key Hin. apply elem_of_cons in Hin as [->|Hin]; [| inversion Hin].
    repeat constructor; discriminate. }
  split; [exact Hwide |]. split; [exact Hkeys |].
  exact (table_rows_are_single_lines (fun _ => []) data None st Hwide Hkeys).
Defined.

(** * Further properties of the console as a whole *)

Lemma lines_count_run (label : option jsstring) (st : Console) :
  _groupLevel st < 0 → lines (output (count label st)) = [].
Proof.
  intros Hneg. rewrite count_run. cbn [output].
  by rewrite mute__log.
Qed.

(** X13.  While the group level is negative the console writes no line,
    whatever is called; the one exception is [group] with a label at level
    -1, which first brings the level back to 0. *)
Theorem console_mute_below_zero format_inspect (c : Call) (st : Console) :
  _groupLevel st < 0 →
  (_groupLevel st = -1 → ∀ label, c ≠ CallGroup label) →
  lines (output (invoke format_inspect c st)) = [].
Proof.
  intros Hneg Hgroup.
  destruct c; cbn [invoke];
    unfold assert, exception, error, info, warn, groupCollapsed, clear;
    rewrite ?log_run; try (by rewrite mute__log); try reflexivity.
  - destruct (negb (truthy assertion)); [| done].
    by rewrite log_run, mute__log.
  - by apply lines_count_run.
  - assert (Hbelow : _groupLevel st < -1).
    { destruct (Z.eq_dec (_groupLevel st) (-1)) as [Heq|Hne]; [| lia].
      by destruct (Hgroup Heq label). }
    unfold group. run_js.
    destruct label as [l|]; [destruct (truthy (JStr l)) |]; try done.
    rewrite log_run, mute__log; [done |].
    change (_groupLevel st + 1 < 0). lia.
  - by apply mute_table.
Qed.

Lemma console_mute_below_zero_witness :
  let st := final (groupEnd (new_CustomConsole (mkWritable false 0) None)) in
  _groupLevel st < 0
  ∧ lines (output (invoke (fun _ => []) (CallLog [JStr (lit "x")]) st)) = [].
Proof.
  intros st.
  assert (Hneg : _groupLevel st < 0) by reflexivity.
  split; [exact Hneg |].
  apply (console_mute_below_zero (fun _ => []) (CallLog [JStr (lit "x")]) st Hneg).
  intros _ label. discriminate.
Defined.

(** X14.  Whether it returns or throws, a call changes nothing of the
    console but its own field: only [count] touches the counters, only
    [group] and [groupCollapsed] (by +1) and [groupEnd] (by -1) touch the
    group level, and nothing touches the formatter or the output width. *)
Theorem calls_change_only_their_own_field format_inspect (c : Call) (st : Console) :
  let st' := final (invoke format_inspect c st) in
  _formatBuffer st' = _formatBuffer st
  ∧ _outWidth st' = _outWidth st
  ∧ ((∀ label, c ≠ CallCount label) → _counts st' = _counts st)
  ∧ _groupLevel st' =
    _groupLevel st + (if opens c then 1 else 0) - (if closes c then 1 else 0).
Proof.
  cbn zeta. rewrite invoke_final. cbn [_formatBuffer _outWidth _counts _groupLevel].
  repeat split. intros Hcount. destruct c; try done. by destruct (Hcount label).
Qed.

Lemma after_outWidth format_inspect (calls : list Call) (st : Console) :
  _outWidth (after format_inspect calls st) = _outWidth st.
Proof.
  revert st. induction calls as [|c calls IH]; intros st; [done |].
  by rewrite after_cons, IH, invoke_final.
Qed.

(** X16.  [group] followed by [groupEnd] gives the console back as it was,
    with or without a label and whether or not the label could be logged;
    so does [groupEnd] followed by [group] without a label.  [groupEnd]
    itself writes nothing and does not throw. *)
Theorem group_groupEnd_round_trip format_inspect (label : option jsstring)
    (st : Console) :
  final (groupEnd (final (group format_inspect label st))) = st
  ∧ final (group format_inspect None (final (groupEnd st))) = st
  ∧ completion (groupEnd st) = inr ()
  ∧ output (groupEnd st) = [].
Proof.
  rewrite !groupEnd_run, !group_final.
  cbn [final completion output _formatBuffer _groupLevel _counts _outWidth].
  replace (_groupLevel st + 1 - 1) with (_groupLevel st) by lia.
  replace (_groupLevel st - 1 + 1) with (_groupLevel st) by lia.
  by rewrite console_eta.
Qed.

(** * Further properties of the counters *)

(** X17.  For a label that [Object.prototype] does not know, the default
    label included, the counter counts: after any sequence of calls on a
    new console in which the label was counted [n] times, one more [count]
    stores [n + 1] and, at a group level that is not negative, writes the
    one line ["label: n+1"]. *)
Theorem count_counts_plain_labels format_inspect (calls : list Call)
    (stdout : Writable) (formatBuffer : option Formatter)
    (label : option jsstring) :
  let l := default (lit "<no label>") label in
  plain_label l →
  let st := after format_inspect calls (new_CustomConsole stdout formatBuffer) in
  let n := occurrences (counts_label l) calls in
  _counts (final (count label st)) !! l = Some (CNum (n + 1))
  ∧ (0 ≤ _groupLevel st →
       lines (output (count label st)) =
       [indentation (_groupLevel st)
        ++ _formatBuffer st TLog (l ++ lit ": " ++ Number_toString (n + 1))]).
Proof.
  intros l Hplain st n.
  destruct (count_progression format_inspect calls stdout formatBuffer label Hplain)
    as (Hstored & _ & Hline).
  by split.
Qed.

Lemma count_counts_plain_labels_witness :
  let calls := [CallCount None; CallGroup (Some (lit "g")); CallCount None;
                CallCount (Some (lit "other"))] in
  let st := after (fun _ => []) calls
              (new_CustomConsole (mkWritable false 0) None) in
  plain_label (lit "<no label>")
  ∧ _counts (final (count None st)) !! lit "<no label>" = Some (CNum 3)
  ∧ (0 ≤ _groupLevel st →
     lines (output (count None st)) = [lit "> <no label>: 3"]).
Proof.
  intros calls st. split; [exact no_label_plain |].
  exact (count_counts_plain_labels (fun _ => []) calls (mkWritable false 0) None
           None no_label_plain).
Defined.

(** X18.  [count] with one label leaves the entry of every other label as
    it was, for the labels that [Object.prototype] knows as for the
    others, and it leaves the group level as it was. *)
Theorem count_keeps_other_labels (label : option jsstring) (other : jsstring)
    (st : Console) :
  other ≠ default (lit "<no label>") label →
  _counts (final (count label st)) !! other = _counts st !! other
  ∧ _groupLevel (final (count label st)) = _groupLevel st.
Proof.
  intros Hother. rewrite count_final. cbn [_counts _groupLevel].
  split; [by apply count_store_other | done].
Qed.

Lemma count_keeps_other_labels_witness :
  let st := final (count (Some (lit "a"))
                     (new_CustomConsole (mkWritable false 0) None)) in
  lit "a" ≠ default (lit "<no label>") (Some (lit "toString"))
  ∧ _counts (final (count (Some (lit "toString")) st)) !! lit "a"
    = Some (CNum 1).
Proof.
  intros st.
  assert (Hother : lit "a" ≠ default (lit "<no label>") (Some (lit "toString")))
    by discriminate.
  split; [exact Hother |].
  destruct (count_keeps_other_labels (Some (lit "toString")) (lit "a") st Hother)
    as [Hcounts _].
  rewrite Hcounts. reflexivity.
Defined.

Lemma method_label_not_accessor (label : jsstring) :
  label ∈ Object_prototype_methods → label ≠ proto_accessor.
Proof.
  intros Hin ->. revert Hin.
  apply (bool_decide_eq_false_1 (proto_accessor ∈ Object_prototype_methods)).
  by vm_compute.
Qed.

(** X19.  For a label that names a method of [Object.prototype]
    ([toString], [constructor], [valueOf], ...) and has no entry yet, the
    first [count] reads the inherited method, stores [NaN] and writes
    ["label: NaN"]; the second starts the counter and writes ["label: 1"]:
    such a label runs one behind. *)
Theorem count_inherited_method_runs_behind (label : jsstring) (st : Console) :
  label ∈ Object_prototype_methods →
  _counts st !! label = None →
  0 ≤ _groupLevel st →
  let first := count (Some label) st in
  let second := count (Some label) (final first) in
  _counts (final first) !! label = Some CNaN
  ∧ lines (output first) =
    [indentation (_groupLevel st) ++ _formatBuffer st TLog (label ++ lit ": NaN")]
  ∧ _counts (final second) !! label = Some (CNum 1)
  ∧ lines (output second) =
    [indentation (_groupLevel st) ++ _formatBuffer st TLog (label ++ lit ": 1")].
Proof.
  intros Hmethod Habsent Hlevel first second.
  pose proof (method_label_not_accessor label Hmethod) as Hacc.
  assert (Hfalse : bool_decide (label = proto_accessor) = false)
    by by apply bool_decide_eq_false_2.
  assert (Htrue : bool_decide (label ∈ Object_prototype_methods) = true)
    by by apply bool_decide_eq_true_2.
  assert (Hstore1 : count_store (_counts st) label = <[label := CNaN]> (_counts st)).
  { unfold count_store, counts_get, counts_set.
    repeat (rewrite ?Habsent, ?Hfalse, ?Htrue;
            cbn [Slot_truthy negb Slot_toNumber CountNumber_succ]).
    done. }
  assert (Hstore2 : count_store (<[label := CNaN]> (_counts st)) label
                    = <[label := CNum 1]> (<[label := CNum 0]>
                                            (<[label := CNaN]> (_counts st)))).
  { unfold count_store, counts_get, counts_set.
    repeat (rewrite ?lookup_insert_eq, ?Hfalse;
            cbn [Slot_truthy negb Slot_toNumber CountNumber_succ]).
    done. }
  subst first second. rewrite !count_run. cbn zeta.
  change (default (lit "<no label>") (Some label)) with label.
  cbn [final output _counts]. rewrite Hstore1, Hstore2.
  rewrite !_log_ok by done.
  cbn [final output lines omap list_omap _counts _groupLevel _formatBuffer].
  unfold counts_get. rewrite !lookup_insert_eq. by cbn.
Qed.

Lemma count_inherited_method_runs_behind_witness :
  let st := new_CustomConsole (mkWritable false 0) None in
  lit "valueOf" ∈ Object_prototype_methods
  ∧ _counts st !! lit "valueOf" = None
  ∧ 0 ≤ _groupLevel st
  ∧ lines (output (count (Some (lit "valueOf")) st)) = [lit "valueOf: NaN"]
  ∧ lines (output (count (Some (lit "valueOf"))
                     (final (count (Some (lit "valueOf")) st))))
    = [lit "valueOf: 1"].
Proof.
  intros st.
  assert (Hmethod : lit "valueOf" ∈ Object_prototype_methods)
    by (apply (bool_decide_eq_true_1 _); vm_compute; reflexivity).
  assert (Hlevel : 0 ≤ _groupLevel st) by (cbn; lia).
  split; [exact Hmethod |]. split; [reflexivity |]. split; [exact Hlevel |].
  destruct (count_inherited_method_runs_behind (lit "valueOf") st Hmethod
              eq_refl Hlevel) as (_ & Hfirst & _ & Hsecond).
  split; [exact Hfirst | exact Hsecond].
Defined.

(** X20.  The label [__proto__] is never counted: as long as the counters
    hold no entry of that name, which no [count] can create, [count]
    leaves the console exactly as it was and writes
    ["__proto__: [object Object]"] every time. *)
Theorem count_proto_label_is_never_counted (st : Console) :
  _counts st !! proto_accessor = None →
  0 ≤ _groupLevel st →
  count (Some proto_accessor) st =
  mkOutcome (inr ()) st
    [ClearLine;
     WriteLine (indentation (_groupLevel st)
                ++ _formatBuffer st TLog (lit "__proto__: [object Object]"))].
Proof.
  intros Habsent Hlevel.
  assert (Htrue : bool_decide (proto_accessor = proto_accessor) = true)
    by by apply bool_decide_eq_true_2.
  assert (Hstore : count_store (_counts st) proto_accessor = _counts st).
  { unfold count_store, counts_get, counts_set.
    repeat (rewrite ?Habsent, ?Htrue;
            cbn [Slot_truthy negb Slot_toNumber CountNumber_succ]).
    done. }
  rewrite count_run. cbn zeta.
  change (default (lit "<no label>") (Some proto_accessor)) with proto_accessor.
  rewrite Hstore, console_eta.
  rewrite _log_ok by done. cbn [completion output].
  unfold counts_get. by rewrite Habsent, Htrue.
Qed.

Lemma count_proto_label_is_never_counted_witness :
  let st := final (count (Some proto_accessor)
                     (new_CustomConsole (mkWritable false 0) None)) in
  _counts st !! proto_accessor = None
  ∧ 0 ≤ _groupLevel st
  ∧ lines (output (count (Some proto_accessor) st))
    = [lit "__proto__: [object Object]"].
Proof.
  intros st.
  assert (Hlevel : 0 ≤ _groupLevel st) by (vm_compute; discriminate).
  split; [reflexivity |]. split; [exact Hlevel |].
  rewrite (count_proto_label_is_never_counted st eq_refl Hlevel).
  reflexivity.
Defined.

(** * Properties of the earlier revision *)

Lemma rev1__log_run (type : LogType) (message : jsstring) (st : Console) :
  Rev1._log type message st =
  if _groupLevel st <? 0
  then mkOutcome (inl RangeError) st [ClearLine]
  else mkOutcome (inr ()) st
         [ClearLine;
          WriteLine (concat (replicate (Z.to_nat (_groupLevel st)) (lit " > "))
                     ++ _formatBuffer st type message)].
Proof.
  unfold Rev1._log, String_repeat.
  run_js. destruct (_groupLevel st <? 0); reflexivity.
Qed.

Lemma rev1_log_string_returns format_inspect (message : jsstring) (st : Console) :
  0 ≤ _groupLevel st →
  Rev1.log format_inspect [JStr message] st
  = mkOutcome (inr ()) st (rev1_logged st [message]).
Proof.
  intros Hlevel. unfold Rev1.log. rewrite rev1__log_run.
  by destruct (Z.ltb_spec (_groupLevel st) 0); [lia |].
Qed.

(** X21.  In the earlier revision [assert] has the test the other way
    round: at a group level that is not negative it writes the message as
    [log] does, one line behind the marker [" > "] repeated to the level,
    when the assertion is truthy, and it writes nothing when the assertion
    is falsy. *)
Theorem rev1_assert_logs_iff_truthy format_inspect (assertion : JsValue)
    (args : list JsValue) (st : Console) :
  0 ≤ _groupLevel st →
  (truthy assertion = true →
     Rev1.assert format_inspect assertion args st =
     mkOutcome (inr ()) st
       [ClearLine;
        WriteLine (concat (replicate (Z.to_nat (_groupLevel st)) (lit " > "))
                   ++ _formatBuffer st TLog (format format_inspect args))])
  ∧ (truthy assertion = false →
     Rev1.assert format_inspect assertion args st = mkOutcome (inr ()) st []).
Proof.
  intros Hlevel. unfold Rev1.assert. split; intros ->; [| done].
  unfold Rev1.log. rewrite rev1__log_run.
  by destruct (Z.ltb_spec (_groupLevel st) 0); [lia |].
Qed.

Lemma rev1_assert_logs_iff_truthy_witness :
  let st := final (Rev1.group (fun _ => []) None
                     (Rev1.new_CustomConsole (mkWritable true 80) None)) in
  0 ≤ _groupLevel st
  ∧ lines (output (Rev1.assert (fun _ => []) (JNum 1) [JStr (lit "x")] st))
    = [lit " > x"]
  ∧ lines (output (Rev1.assert (fun _ => []) (JNum 0) [JStr (lit "x")] st)) = [].
Proof.
  intros st.
  assert (Hlevel : 0 ≤ _groupLevel st) by (vm_compute; discriminate).
  split; [exact Hlevel |].
  destruct (rev1_assert_logs_iff_truthy (fun _ => []) (JNum 1) [JStr (lit "x")]
              st Hlevel) as [Htrue _].
  destruct (rev1_assert_logs_iff_truthy (fun _ => []) (JNum 0) [JStr (lit "x")]
              st Hlevel) as [_ Hfalse].
  rewrite (Htrue eq_refl), (Hfalse eq_refl). split; reflexivity.
Defined.

(** X22.  In the earlier revision the guard of [table] tests the type
    alone: [undefined], a number, a string or a boolean is skipped without
    a trace, and [null], whose type is ["object"], gets through to
    [Object.keys] and throws a [TypeError] before anything is written. *)
Theorem rev1_table_guard format_inspect (data : JsValue)
    (columns : option (list JsValue)) (st : Console) :
  is_collection data = false →
  Rev1.table format_inspect data columns st =
  mkOutcome (match data with JNull => inl TypeError | _ => inr () end) st [].
Proof.
  intros Hdata. destruct data; try discriminate Hdata; reflexivity.
Qed.

Lemma rev1_table_guard_witness :
  let st := Rev1.new_CustomConsole (mkWritable true 80) None in
  is_collection JNull = false
  ∧ Rev1.table (fun _ => []) JNull None st = mkOutcome (inl TypeError) st []
  ∧ Rev1.table (fun _ => []) (JNum 3) None st = mkOutcome (inr ()) st [].
Proof.
  intros st. split; [reflexivity |].
  split; [exact (rev1_table_guard (fun _ => []) JNull None st eq_refl) |].
  exact (rev1_table_guard (fun _ => []) (JNum 3) None st eq_refl).
Defined.

Lemma rev1_max_from_ok {A} (arr : list A) (evaluator : A → JsError + Z)
    (m : option Z) :
  (∀ el, el ∈ arr → ∃ z, evaluator el = inr z) →
  ∃ r, Rev1.max_from m arr evaluator = inr r.
Proof.
  revert m. induction arr as [|el rest IH]; intros m Hall; cbn [Rev1.max_from].
  - by eexists.
  - destruct (Hall el) as [z ->]; [by left |].
    apply IH. intros el' Hin. apply Hall. by right.
Qed.

Lemma rev1_max_from_inr {A} (arr : list A) (evaluator : A → JsError + Z)
    (m r : option Z) :
  Rev1.max_from m arr evaluator = inr r →
  ∀ el, el ∈ arr → ∃ z, evaluator el = inr z.
Proof.
  revert m. induction arr as [|el rest IH]; intros m Hmax el' Hin.
  - inversion Hin.
  - cbn [Rev1.max_from] in Hmax.
    destruct (evaluator el) as [e|z] eqn:Hel; [done |].
    apply elem_of_cons in Hin as [->|Hin]; [by eexists |].
    by eapply IH.
Qed.

Lemma rev1_logged_cons st message messages :
  rev1_logged st (message :: messages)
  = rev1_logged st [message] ++ rev1_logged st messages.
Proof. reflexivity. Qed.

Lemma rev1_logged_app st messages messages' :
  rev1_logged st (messages ++ messages')
  = rev1_logged st messages ++ rev1_logged st messages'.
Proof. unfold rev1_logged. by rewrite flat_map_app. Qed.

Lemma lines_rev1_logged st messages :
  lines (rev1_logged st messages) =
  map (fun message =>
         concat (replicate (Z.to_nat (_groupLevel st)) (lit " > "))
         ++ _formatBuffer st TLog message) messages.
Proof.
  induction messages as [|m rest IH]; [done |].
  rewrite rev1_logged_cons, lines_app, IH. reflexivity.
Qed.

Lemma rev1_table_rows_return format_inspect data keyWidth valueWidth keys st :
  0 ≤ _groupLevel st →
  (∀ key, key ∈ keys → ∃ s, stringify (get_property data key) = inr s) →
  for_of keys (Rev1.table_row format_inspect data keyWidth valueWidth) st =
  mkOutcome (inr ()) st
    (rev1_logged st (map (rendered_row data keyWidth valueWidth) keys)).
Proof.
  intros Hlevel. induction keys as [|key keys IH]; intros Hkeys; [done |].
  cbn [for_of map]. rewrite rev1_logged_cons.
  eapply bind_returns.
  - destruct (Hkeys key) as [s Hs]; [by left |].
    unfold Rev1.table_row, rendered_row, cell_text. rewrite Hs.
    eapply eq_trans.
    { eapply bind_returns; [reflexivity |].
      eapply bind_returns; [apply liftE_returns, pad_ok |].
      eapply bind_returns; [apply liftE_returns, pad_ok |].
      by apply rev1_log_string_returns. }
    reflexivity.
  - apply IH. intros key' Hin. apply Hkeys. by right.
Qed.

(** [table] of the earlier revision on a collection whose values all have
    a JSON text, at a group level and with a fitted total width that are
    not negative, writes the lines of [rev1_rendered] and returns. *)
Lemma rev1_table_run format_inspect data columns st mk mv :
  is_collection data = true →
  Rev1.max (Object_keys data) (fun el => Rev1.stringify_length (JStr el)) = inr mk →
  Rev1.max (Object_values data) Rev1.stringify_length = inr mv →
  0 ≤ _groupLevel st →
  let w := fitWidths (_outWidth st)
             (Rev1.Math_max_null mk (String_length (lit "(index)")))
             (Rev1.Math_max_null mv (String_length (lit "Value"))) in
  0 ≤ w.1 + w.2 + 7 →
  Rev1.table format_inspect data columns st =
  mkOutcome (inr ()) st (rev1_logged st (rev1_rendered data w.1 w.2)).
Proof.
  intros Hdata Hmk Hmv Hlevel w Htotal.
  assert (Hguard : negb (bool_decide (typeof data = TyObject)) = false)
    by by destruct data.
  assert (Hkeys : match data with
                  | JNull => inl TypeError
                  | _ => inr (Object_keys data)
                  end = (inr (Object_keys data) : JsError + list jsstring))
    by by destruct data.
  unfold Rev1.table. rewrite Hguard.
  eapply eq_trans.
  { eapply bind_returns; [apply liftE_returns, Hkeys |].
    eapply bind_returns; [apply liftE_returns, Hmk |].
    eapply bind_returns; [apply liftE_returns, Hmv |].
    eapply bind_returns; [apply this_returns |].
    cbn zeta. fold w.
    eapply bind_returns; [apply liftE_returns, pad_ok |].
    eapply bind_returns; [apply liftE_returns, pad_ok |].
    eapply bind_returns;
      [apply liftE_returns, (String_repeat_unit 95%N); lia |].
    eapply bind_returns; [by apply rev1_log_string_returns |].
    eapply bind_returns; [by apply rev1_log_string_returns |].
    eapply bind_returns;
      [apply liftE_returns, (String_repeat_unit 45%N); lia |].
    eapply bind_returns; [by apply rev1_log_string_returns |].
    eapply bind_returns.
    { apply rev1_table_rows_return; [done |]. intros key Hin.
      destruct (rev1_max_from_inr _ _ _ _ Hmv (get_property data key)) as [z Hz];
        [by apply get_property_in_values |].
      unfold Rev1.stringify_length in Hz.
      destruct (stringify (get_property data key)); [done | by eexists]. }
    eapply bind_returns.
    { apply liftE_returns. unfold String_repeat.
      by destruct (Z.ltb_spec (w.1 + w.2 + 7) 0); [lia |]. }
    by apply rev1_log_string_returns. }
  unfold rev1_rendered. rewrite !rev1_logged_app. cbn [app]. reflexivity.
Qed.

Lemma rev1_max_from_upper {A} (arr : list A) (evaluator : A → JsError + Z)
    (m r : option Z) :
  Rev1.max_from m arr evaluator = inr r →
  (∀ x0, m = Some x0 → ∃ x, r = Some x ∧ x0 ≤ x)
  ∧ (∀ el z, el ∈ arr → evaluator el = inr z → ∃ x, r = Some x ∧ z ≤ x).
Proof.
  revert m. induction arr as [|el rest IH]; intros m Hmax;
    cbn [Rev1.max_from] in Hmax.
  - injection Hmax as <-. split.
    + intros x0 ->. exists x0. split; [done | lia].
    + intros el z Hin. inversion Hin.
  - destruct (evaluator el) as [e|z] eqn:Hel; [done |].
    destruct (IH _ Hmax) as [Hstart Hall].
    destruct (Hstart _ eq_refl) as (x & -> & Hx).
    split.
    + intros x0 ->. exists x. split; [done | lia].
    + intros el' z' Hin Hel'. apply elem_of_cons in Hin as [->|Hin].
      * rewrite Hel in Hel'. injection Hel' as <-.
        exists x. split; [done |]. destruct m; lia.
      * by eapply Hall.
Qed.

Lemma rev1_keys_measure_ok (data : JsValue) :
  ∃ mk, Rev1.max (Object_keys data)
          (fun el => Rev1.stringify_length (JStr el)) = inr mk.
Proof. apply rev1_max_from_ok. intros el _. by eexists. Qed.

Lemma rev1_values_measure_ok (data : JsValue) :
  (∀ value, value ∈ Object_values data → JSON_stringify value ≠ None) →
  ∃ mv, Rev1.max (Object_values data) Rev1.stringify_length = inr mv.
Proof.
  intros Hvalues. apply rev1_max_from_ok. intros value Hin.
  specialize (Hvalues value Hin). unfold Rev1.stringify_length, stringify.
  destruct (JSON_stringify value); [by eexists | done].
Qed.

Lemma Math_max_null_ge (m : option Z) (n : Z) : n ≤ Rev1.Math_max_null m n.
Proof. unfold Rev1.Math_max_null. lia. Qed.

Lemma rev1_rendered_length (data : JsValue) (keyWidth valueWidth : Z) :
  length (rev1_rendered data keyWidth valueWidth)
  = (4 + length (Object_keys data))%nat.
Proof.
  unfold rev1_rendered. rewrite !length_app, length_map. cbn [length]. lia.
Qed.

(** X23.  In the earlier revision [table] has one unbroken separator row,
    so no narrow output makes it throw: on a collection whose values all
    have a JSON text, at a group level that is not negative, it returns
    for every output width from 0 on, having written four lines and one
    more for each key. *)
Theorem rev1_table_completes format_inspect (data : JsValue)
    (columns : option (list JsValue)) (st : Console) :
  is_collection data = true →
  0 ≤ _groupLevel st →
  0 ≤ _outWidth st →
  (∀ value, value ∈ Object_values data → JSON_stringify value ≠ None) →
  completion (Rev1.table format_inspect data columns st) = inr ()
  ∧ length (lines (output (Rev1.table format_inspect data columns st)))
    = (4 + length (Object_keys data))%nat.
Proof.
  intros Hdata Hlevel Hwide Hvalues.
  destruct (rev1_keys_measure_ok data) as [mk Hmk].
  destruct (rev1_values_measure_ok data Hvalues) as [mv Hmv].
  pose proof (Math_max_null_ge mk (String_length (lit "(index)"))) as Hk.
  pose proof (Math_max_null_ge mv (String_length (lit "Value"))) as Hv.
  pose proof index_header_length. pose proof value_header_length.
  destruct (fitWidths_total (_outWidth st)
              (Rev1.Math_max_null mk (String_length (lit "(index)")))
              (Rev1.Math_max_null mv (String_length (lit "Value"))))
    as (Htotal & _).
  rewrite (rev1_table_run format_inspect data columns st mk mv) by (try done; lia).
  cbn [completion output]. split; [done |].
  by rewrite lines_rev1_logged, length_map, rev1_rendered_length.
Qed.

Lemma rev1_table_completes_witness :
  let st := Rev1.new_CustomConsole (mkWritable true 1) None in
  let data := JArr [JNum 4; JNull] in
  is_collection data = true
  ∧ 0 ≤ _groupLevel st
  ∧ 0 ≤ _outWidth st
  ∧ (∀ value, value ∈ Object_values data → JSON_stringify value ≠ None)
  ∧ completion (Rev1.table (fun _ => []) data None st) = inr ()
  ∧ length (lines (output (Rev1.table (fun _ => []) data None st))) = 6%nat.
Proof.
  intros st data.
  assert (Hlevel : 0 ≤ _groupLevel st) by (vm_compute; discriminate).
  assert (Hwide : 0 ≤ _outWidth st) by (vm_compute; discriminate).
  assert (Hvalues : ∀ value, value ∈ Object_values data →
                    JSON_stringify value ≠ None).
  { intros value Hin.
    apply elem_of_cons in Hin as [->|Hin]; [discriminate |].
    apply elem_of_cons in Hin as [->|Hin]; [discriminate |].
    inversion Hin. }
  split; [reflexivity |]. split; [exact Hlevel |]. split; [exact Hwide |].
  split; [exact Hvalues |].
  exact (rev1_table_completes (fun _ => []) data None st eq_refl Hlevel Hwide
           Hvalues).
Defined.

Lemma JSON_quote_length (s : jsstring) :
  String_length s + 2 ≤ String_length (JSON_quote s).
Proof.
  unfold JSON_quote, String_length. rewrite !length_app. cbn [length].
  assert (Hbody : (length s ≤ length (concat (map JSON_escape s)))%nat).
  { induction s as [|c s IH]; [done |]. cbn [map concat length].
    rewrite length_app.
    assert (1 ≤ length (JSON_escape c))%nat; [| lia].
    unfold JSON_escape.
    repeat (match goal with
            | |- context [(?a =? ?b)%N] => destruct (N.eqb_spec a b)
            | |- context [(?a <? ?b)%N] => destruct (N.ltb_spec a b)
            end); cbn; lia. }
  lia.
Qed.

(** X24.  In the earlier revision the key column is measured on the quoted
    key: before fitting it is at least two wider than every key is long,
    and at least as wide as the 7 of ["(index)"]. *)
Theorem rev1_key_column_counts_quotes (data : JsValue) (mk : option Z)
    (key : jsstring) :
  Rev1.max (Object_keys data) (fun el => Rev1.stringify_length (JStr el)) = inr mk →
  key ∈ Object_keys data →
  let keyWidth := Rev1.Math_max_null mk (String_length (lit "(index)")) in
  7 ≤ keyWidth ∧ String_length key + 2 ≤ keyWidth.
Proof.
  intros Hmk Hin keyWidth.
  pose proof (Math_max_null_ge mk (String_length (lit "(index)"))) as Hk.
  pose proof index_header_length.
  split; [subst keyWidth; lia |].
  destruct (rev1_max_from_upper _ _ _ _ Hmk) as [_ Hall].
  destruct (Hall key (String_length (JSON_quote key)) Hin) as (x & -> & Hx).
  { unfold Rev1.stringify_length. rewrite stringify_JSON. reflexivity. }
  pose proof (JSON_quote_length key).
  subst keyWidth. unfold Rev1.Math_max_null. cbn [default from_option id]. lia.
Qed.

Lemma rev1_key_column_counts_quotes_witness :
  let data := JObj [(lit "sixsix", JNum 1)] in
  Rev1.max (Object_keys data) (fun el => Rev1.stringify_length (JStr el))
  = inr (Some 8)
  ∧ lit "sixsix" ∈ Object_keys data
  ∧ 7 ≤ Rev1.Math_max_null (Some 8) (String_length (lit "(index)"))
  ∧ String_length (lit "sixsix") + 2
    ≤ Rev1.Math_max_null (Some 8) (String_length (lit "(index)")).
Proof.
  intros data.
  assert (Hin : lit "sixsix" ∈ Object_keys data) by left.
  split; [reflexivity |]. split; [exact Hin |].
  exact (rev1_key_column_counts_quotes data (Some 8) (lit "sixsix") eq_refl Hin).
Defined.

Lemma rendered_row_length (data : JsValue) (keyWidth valueWidth : Z)
    (key : jsstring) :
  0 ≤ keyWidth → 0 ≤ valueWidth →
  String_length (rendered_row data keyWidth valueWidth key)
  = keyWidth + valueWidth + 7.
Proof.
  intros Hk Hv. unfold rendered_row.
  rewrite !String_length_app, !padded_length by lia.
  change (String_length (lit "| ")) with 2.
  change (String_length (lit " | ")) with 3.
  change (String_length (lit " |")) with 2. lia.
Qed.

Lemma border_repeat_length (n : Z) :
  0 ≤ n → String_length (concat (replicate (Z.to_nat n) Rev1.border)) = 3 * n.
Proof.
  intros Hn. unfold String_length.
  assert (Hlen : ∀ m : nat,
            length (concat (replicate m Rev1.border)) = (3 * m)%nat).
  { induction m as [|m IH]; [done |]. cbn [replicate concat].
    rewrite length_app, IH. cbn [Rev1.border length]. lia. }
  rewrite Hlen. lia.
Qed.

(** X25.  In the earlier revision the bottom border is three times as long
    as the rest of the table: with fitted widths that are not negative,
    every line but the last carries a message of
    [keyWidth + valueWidth + 7] code units, and the last one a message of
    three times as many. *)
Theorem rev1_bottom_border_is_three_times_as_long format_inspect
    (data : JsValue) (columns : option (list JsValue)) (st : Console)
    (mk mv : option Z) :
  is_collection data = true →
  Rev1.max (Object_keys data) (fun el => Rev1.stringify_length (JStr el)) = inr mk →
  Rev1.max (Object_values data) Rev1.stringify_length = inr mv →
  0 ≤ _groupLevel st →
  let w := fitWidths (_outWidth st)
             (Rev1.Math_max_null mk (String_length (lit "(index)")))
             (Rev1.Math_max_null mv (String_length (lit "Value"))) in
  0 ≤ w.1 → 0 ≤ w.2 →
  ∃ messages bottom,
    lines (output (Rev1.table format_inspect data columns st)) =
    map (fun message =>
           concat (replicate (Z.to_nat (_groupLevel st)) (lit " > "))
           ++ _formatBuffer st TLog message) (messages ++ [bottom])
    ∧ length messages = (3 + length (Object_keys data))%nat
    ∧ (∀ message, message ∈ messages →
         String_length message = w.1 + w.2 + 7)
    ∧ String_length bottom = 3 * (w.1 + w.2 + 7).
Proof.
  intros Hdata Hmk Hmv Hlevel w Hk Hv.
  rewrite (rev1_table_run format_inspect data columns st mk mv)
    by (try done; fold w; lia).
  fold w. cbn [output]. rewrite lines_rev1_logged. unfold rev1_rendered.
  eexists (_ ++ _), _. split; [by rewrite <- app_assoc |].
  split; [rewrite length_app, length_map; cbn [length]; lia |].
  split; [| apply border_repeat_length; lia].
  intros message Hin.
  rewrite elem_of_app, !elem_of_cons, list_elem_of_fmap in Hin.
  destruct Hin as [[->|[->|[->|Hnil]]]|(key & -> & _)];
    try (by inversion Hnil).
  - apply repeated_length. lia.
  - rewrite !String_length_app, !padded_length by lia.
    change (String_length (lit "| ")) with 2.
    change (String_length (lit " | ")) with 3.
    change (String_length (lit " |")) with 2. lia.
  - apply repeated_length. lia.
  - by apply rendered_row_length.
Qed.

Lemma rev1_bottom_border_is_three_times_as_long_witness :
  let st := Rev1.new_CustomConsole (mkWritable true 80) None in
  let data := JArr [JNum 4] in
  is_collection data = true
  ∧ 0 ≤ _groupLevel st
  ∧ ∃ messages bottom,
      lines (output (Rev1.table (fun _ => []) data None st)) =
      map (fun message =>
             concat (replicate (Z.to_nat (_groupLevel st)) (lit " > "))
             ++ _formatBuffer st TLog message) (messages ++ [bottom])
      ∧ length messages = (3 + length (Object_keys data))%nat
      ∧ (∀ message, message ∈ messages → String_length message = 7 + 5 + 7)
      ∧ String_length bottom = 3 * (7 + 5 + 7).
Proof.
  intros st data.
  assert (Hlevel : 0 ≤ _groupLevel st) by (vm_compute; discriminate).
  split; [reflexivity |]. split; [exact Hlevel |].
  apply (rev1_bottom_border_is_three_times_as_long (fun _ => []) data None st
           (Some 3) (Some 1) eq_refl eq_refl eq_refl Hlevel).
  - vm_compute. discriminate.
  - vm_compute. discriminate.
Defined.

(** * The click handler *)

(** X26.  The text that the click handler puts into [#username] tells the
    users apart: two users get the same text only when they have the same
    full name and the same login state, whatever the names hold. *)
Theorem usernameText_injective (user1 user2 : User) :
  usernameText user1 = usernameText user2 →
  fullName user1 = fullName user2
  ∧ truthy (loggedIn user1) = truthy (loggedIn user2).
Proof.
  unfold usernameText, loggedText. intros Htext.
  assert (Hin : ∀ name, name ++ lit " - " ++ lit "Logged " ++ lit "In"
                        = (name ++ lit " - Logged I") ++ [110%N])
    by (intros name; by rewrite <- app_assoc).
  assert (Hout : ∀ name, name ++ lit " - " ++ lit "Logged " ++ lit "Out"
                         = (name ++ lit " - Logged Ou") ++ [116%N])
    by (intros name; by rewrite <- app_assoc).
  destruct (truthy (loggedIn user1)), (truthy (loggedIn user2)).
  - split; [| done]. by eapply app_inv_tail.
  - rewrite Hin, Hout in Htext. by apply app_inj_tail in Htext as [_ [=]].
  - rewrite Hin, Hout in Htext. by apply app_inj_tail in Htext as [_ [=]].
  - split; [| done]. by eapply app_inv_tail.
Qed.

Lemma usernameText_injective_witness :
  let user1 := mkUser (JBool true) (lit "Johnny Cash") in
  let user2 := mkUser (JNum 1) (lit "Johnny Cash") in
  usernameText user1 = usernameText user2
  ∧ usernameText user1 = lit "Johnny Cash - Logged In"
  ∧ fullName user1 = fullName user2
  ∧ truthy (loggedIn user1) = truthy (loggedIn user2).
Proof.
  intros user1 user2. split; [reflexivity |]. split; [reflexivity |].
  exact (usernameText_injective user1 user2 eq_refl).
Defined.
